(** * 3D Forge: the code sandbox and the export filters

    A shallow embedding of [src/utils/sandbox.js] (validateCode,
    executeThreeJSCode, cleanCode) and of the scene filters of
    [src/utils/exporters.js], together with the part of
    [src/components/viewer.js] that builds the scene the exporters read.

    JavaScript strings are sequences of UTF-16 code units; a code unit is
    a number [N].  Regular expressions are kept as syntax trees and run by
    a backtracking matcher that follows the matcher of the language
    definition for the operators the source uses. *)

From Stdlib Require Import NArith Lia.
From stdpp Require Import base list strings gmap.

Open Scope N_scope.
Open Scope list_scope.

(** ** Strings *)

Module JS.

Definition codeUnit := N.
Definition jsstring := list N.

(** A source literal, as code units (all literals of the source are ASCII). *)
Definition lit (s : string) : jsstring :=
  map (fun a => N.of_nat (Ascii.nat_of_ascii a)) (String.list_ascii_of_string s).

Definition backtick : N := 96.
Definition newline : N := 10.
Definition dquote : N := 34.

(** WhiteSpace and LineTerminator code points: what both [\s] and
    [String.prototype.trim] treat as white space. *)
Definition isWhiteSpace (c : N) : bool :=
  (c =? 9) || (c =? 10) || (c =? 11) || (c =? 12) || (c =? 13) || (c =? 32)
  || (c =? 160) || (c =? 5760) || ((8192 <=? c) && (c <=? 8202))
  || (c =? 8232) || (c =? 8233) || (c =? 8239) || (c =? 8287)
  || (c =? 12288) || (c =? 65279).

(** [\w]: the basic word characters (the patterns carry no [u] flag). *)
Definition isWordChar (c : N) : bool :=
  ((97 <=? c) && (c <=? 122)) || ((65 <=? c) && (c <=? 90))
  || ((48 <=? c) && (c <=? 57)) || (c =? 95).

(** Canonicalize of a non-unicode, case-insensitive pattern, as far as an
    ASCII pattern character can observe it: ASCII letters fold to upper
    case; a code unit of 128 or more never folds to an ASCII one, so it is
    left alone. *)
Definition canonicalize (ignoreCase : bool) (c : N) : N :=
  if ignoreCase && (97 <=? c) && (c <=? 122) then c - 32 else c.

Fixpoint startsWith (s p : jsstring) : bool :=
  match p, s with
  | [], _ => true
  | _ :: _, [] => false
  | y :: p', x :: s' => (x =? y) && startsWith s' p'
  end.

(** [String.prototype.includes] *)
Fixpoint includes (s sub : jsstring) : bool :=
  startsWith s sub ||
  match s with
  | [] => false
  | _ :: t => includes t sub
  end.

(** [String.prototype.trimStart], [trimEnd] and [trim] *)
Fixpoint trimStart (s : jsstring) : jsstring :=
  match s with
  | [] => []
  | c :: t => if isWhiteSpace c then trimStart t else s
  end.

Definition trimEnd (s : jsstring) : jsstring := rev (trimStart (rev s)).

Definition trim (s : jsstring) : jsstring := trimEnd (trimStart s).

End JS.

(** ** Regular expressions *)

Module Regex.
Import JS.

Inductive regex : Type :=
| REmpty
| RChar (c : N)            (* a pattern character, escaped or not *)
| RWhite                   (* \s *)
| RAny                     (* [\s\S] *)
| RBoundary                (* \b *)
| RSeq (a b : regex)
| RAlt (a b : regex)       (* a|b *)
| ROpt (a : regex)         (* a? *)
| RStar (a : regex)        (* a* *)
| RPlus (a : regex)        (* a+ *)
| RLazyStar (a : regex)    (* a*? *)
| RGroup (a : regex).      (* (a), the first capture *)

Definition seq (rs : list regex) : regex := foldr RSeq REmpty rs.
Definition chars (s : string) : list regex := map RChar (lit s).

(** The matcher's state: the code unit before the current index, the
    input from the current index on, and the first capture. *)
Record MatchState : Type := mkState {
  prev : option N;
  rest : jsstring;
  cap1 : option jsstring
}.

Definition Cont := MatchState -> option MatchState.
Definition Matcher := MatchState -> Cont -> option MatchState.

Definition charMatcher (p : N -> bool) : Matcher := fun st k =>
  match rest st with
  | [] => None
  | x :: t => if p x then k (mkState (Some x) t (cap1 st)) else None
  end.

Definition isWordOpt (o : option N) : bool :=
  match o with Some c => isWordChar c | None => false end.

Definition atBoundary (st : MatchState) : bool :=
  xorb (isWordOpt (prev st)) (isWordOpt (head (rest st))).

Definition orElse (a b : option MatchState) : option MatchState :=
  match a with Some x => Some x | None => b end.

(** RepeatMatcher with min 0 and no max: an iteration that consumes
    nothing fails; [fuel] bounds the number of iterations and is taken
    larger than the input that is left. *)
Fixpoint repeatMatcher (m : Matcher) (greedy : bool) (fuel : nat) : Matcher :=
  fun st k =>
  match fuel with
  | O => k st
  | S f =>
      let iter := m st (fun st' =>
        if (length (rest st') <? length (rest st))%nat
        then repeatMatcher m greedy f st' k else None) in
      if greedy then orElse iter (k st) else orElse (k st) iter
  end.

Fixpoint rmatch (ic : bool) (r : regex) : Matcher := fun st k =>
  match r with
  | REmpty => k st
  | RChar c => charMatcher (fun x => canonicalize ic x =? canonicalize ic c) st k
  | RWhite => charMatcher isWhiteSpace st k
  | RAny => charMatcher (fun _ => true) st k
  | RBoundary => if atBoundary st then k st else None
  | RSeq a b => rmatch ic a st (fun st' => rmatch ic b st' k)
  | RAlt a b => orElse (rmatch ic a st k) (rmatch ic b st k)
  | ROpt a =>
      orElse (rmatch ic a st (fun st' =>
                if (length (rest st') <? length (rest st))%nat
                then k st' else None))
             (k st)
  | RStar a => repeatMatcher (rmatch ic a) true (S (length (rest st))) st k
  | RPlus a =>
      rmatch ic a st (fun st' =>
        repeatMatcher (rmatch ic a) true (S (length (rest st'))) st' k)
  | RLazyStar a => repeatMatcher (rmatch ic a) false (S (length (rest st))) st k
  | RGroup a =>
      rmatch ic a st (fun st' =>
        k (mkState (prev st') (rest st')
             (Some (take (length (rest st) - length (rest st'))%nat (rest st)))))
  end.

(** A regular expression literal: its source text, its syntax tree and
    its [i] flag (no literal of the source has [g] or [y], so [lastIndex]
    stays 0). *)
Record RegExp : Type := mkRegExp {
  source : jsstring;
  pattern : regex;
  ignoreCase : bool
}.

(** The source text of a syntax tree, to check each transcription of a
    literal against the text between its slashes. *)
Definition escaped (c : N) : bool :=
  (c =? 40) || (c =? 41) || (c =? 46) || (c =? 91).

Fixpoint unparse (r : regex) : jsstring :=
  match r with
  | REmpty => []
  | RChar c =>
      if c =? newline then lit "\n"
      else if escaped c then 92 :: [c] else [c]
  | RWhite => lit "\s"
  | RAny => lit "[\s\S]"
  | RBoundary => lit "\b"
  | RSeq a b => unparse a ++ unparse b
  | RAlt a b => lit "(?:" ++ unparse a ++ lit "|" ++ unparse b ++ lit ")"
  | ROpt a => unparse a ++ lit "?"
  | RStar a => unparse a ++ lit "*"
  | RPlus a => unparse a ++ lit "+"
  | RLazyStar a => unparse a ++ lit "*?"
  | RGroup a => lit "(" ++ unparse a ++ lit ")"
  end.

(** RegExpBuiltinExec: the first index, from 0 up to the length, at which
    the pattern matches. *)
Fixpoint execFrom (re : RegExp) (before : option N) (s : jsstring)
  : option MatchState :=
  match rmatch (ignoreCase re) (pattern re) (mkState before s None) Some with
  | Some st => Some st
  | None =>
      match s with
      | [] => None
      | x :: t => execFrom re (Some x) t
      end
  end.

Definition exec (re : RegExp) (s : jsstring) : option MatchState :=
  execFrom re None s.

(** [RegExp.prototype.test] *)
Definition test (re : RegExp) (s : jsstring) : bool :=
  match exec re s with Some _ => true | None => false end.

End Regex.

(** ** src/utils/sandbox.js *)

Module Sandbox.
Import JS Regex.

(** *** The deny list *)

Definition re (src : string) (ic : bool) (ts : list regex) : RegExp :=
  mkRegExp (lit src) (seq ts) ic.

Definition callOf (name : string) : list regex :=
  [RBoundary] ++ chars name ++ [RStar RWhite; RChar 40].
Definition memberOf (name : string) : list regex :=
  [RBoundary] ++ chars name ++ [RStar RWhite; RChar 46].
Definition wordOf (name : string) : list regex :=
  [RBoundary] ++ chars name ++ [RBoundary].

Definition pFetch := re "\bfetch\s*\(" true (callOf "fetch").
Definition pEval := re "\beval\s*\(" true (callOf "eval").
Definition pFunction := re "\bFunction\s*\(" true (callOf "Function").
Definition pDocument := re "\bdocument\s*\." true (memberOf "document").
Definition pWindow := re "\bwindow\s*\." true (memberOf "window").
Definition pImport :=
  re "\bimport\s+" true ([RBoundary] ++ chars "import" ++ [RPlus RWhite]).
Definition pRequire := re "\brequire\s*\(" true (callOf "require").
Definition pLocalStorage := re "\blocalStorage\b" true (wordOf "localStorage").
Definition pSessionStorage :=
  re "\bsessionStorage\b" true (wordOf "sessionStorage").
Definition pCookie := re "\bcookie\b" true (wordOf "cookie").
Definition pXMLHttpRequest :=
  re "\bXMLHttpRequest\b" true (wordOf "XMLHttpRequest").
Definition pWebSocket := re "\bWebSocket\b" true (wordOf "WebSocket").
Definition pWorker := re "\bworker\b" true (wordOf "worker").
Definition pSetTimeout := re "\bsetTimeout\s*\(" true (callOf "setTimeout").
Definition pSetInterval := re "\bsetInterval\s*\(" true (callOf "setInterval").
Definition pProto := re "\b__proto__\b" true (wordOf "__proto__").
Definition pPrototype := re "\bprototype\b" true (wordOf "prototype").
Definition pConstructor :=
  re "\bconstructor\s*\[" true
     ([RBoundary] ++ chars "constructor" ++ [RStar RWhite; RChar 91]).

Definition FORBIDDEN_PATTERNS : list RegExp :=
  [ pFetch; pEval; pFunction; pDocument; pWindow; pImport; pRequire;
    pLocalStorage; pSessionStorage; pCookie; pXMLHttpRequest; pWebSocket;
    pWorker; pSetTimeout; pSetInterval; pProto; pPrototype; pConstructor ].

(** *** validateCode *)

Record ValidationResult : Type := mkResult {
  valid : bool;
  error : option jsstring
}.

Definition securityMessage (p : RegExp) : jsstring :=
  lit "Security violation: Forbidden pattern detected (" ++ source p ++ lit ")".

Definition structuralMessage : jsstring :=
  lit "Code must contain a " ++ [dquote] ++ lit "function createObject()"
    ++ [dquote] ++ lit " definition".

(** The [for ... of] loop with its early return. *)
Fixpoint scanForbidden (ps : list RegExp) (code : jsstring)
  : option ValidationResult :=
  match ps with
  | [] => None
  | p :: ps' =>
      if test p code
      then Some (mkResult false (Some (securityMessage p)))
      else scanForbidden ps' code
  end.

Definition validateCode (code : jsstring) : ValidationResult :=
  match scanForbidden FORBIDDEN_PATTERNS code with
  | Some r => r
  | None =>
      if negb (includes code (lit "function createObject"))
      then mkResult false (Some structuralMessage)
      else mkResult true None
  end.

(** *** Values, scopes and the host's evaluator *)

(** An object: which one it is, and what [instanceof], [constructor?.name]
    and [typeof] report of it. Two objects of one class differ in their
    identity; every [new] makes an object with an identity of its own. *)
Record JSObject : Type := mkObject {
  identity : nat;
  instanceOfObject3D : bool;       (* result instanceof THREE.Object3D *)
  constructorName : option jsstring; (* constructor?.name, when truthy *)
  callable : bool                  (* typeof gives function, not object *)
}.

Inductive JSValue : Type :=
| VUndefined
| VNull
| VBoolean (b : bool)
| VNumber (n : Z)
| VNaN
| VBigInt (n : Z)
| VString (s : jsstring)
| VSymbol
| VObject (o : JSObject).

(** ToBoolean *)
Definition truthy (v : JSValue) : bool :=
  match v with
  | VUndefined | VNull | VNaN => false
  | VBoolean b => b
  | VNumber n | VBigInt n => negb (n =? 0)%Z
  | VString s => match s with [] => false | _ => true end
  | VSymbol | VObject _ => true
  end.

Definition typeOf (v : JSValue) : jsstring :=
  match v with
  | VUndefined => lit "undefined"
  | VNull => lit "object"
  | VBoolean _ => lit "boolean"
  | VNumber _ | VNaN => lit "number"
  | VBigInt _ => lit "bigint"
  | VString _ => lit "string"
  | VSymbol => lit "symbol"
  | VObject o => if callable o then lit "function" else lit "object"
  end.

(** [result.constructor?.name] of a truthy value, with the standard
    wrappers of the primitives. *)
Definition constructorNameOf (v : JSValue) : option jsstring :=
  match v with
  | VUndefined | VNull => None
  | VBoolean _ => Some (lit "Boolean")
  | VNumber _ | VNaN => Some (lit "Number")
  | VBigInt _ => Some (lit "BigInt")
  | VString _ => Some (lit "String")
  | VSymbol => Some (lit "Symbol")
  | VObject o => constructorName o
  end.

Definition isObject3D (v : JSValue) : bool :=
  match v with VObject o => instanceOfObject3D o | _ => false end.

(** A thrown value, by what a [catch] block reads of it: [error.message],
    the [includes] method of that message and the text the message
    converts to. Accessors and methods that throw in their turn are not
    among these. *)
Inductive Thrown : Type :=
| WithMessage (m : jsstring)
    (* error.message is the string m *)
| WithOtherMessage (found : bool) (text : jsstring)
    (* error.message is no string and has an includes method, as an array
       has: what includes('Security violation') answers, and String(message) *)
| WithPlainMessage (text : option jsstring)
    (* error.message has no includes method: undefined (no text), a number,
       a plain object; String(message) *)
| Nullish.
    (* null or undefined was thrown: reading error.message fails *)

Inductive Completion : Type :=
| Normal (v : JSValue)
| Abrupt (t : Thrown).

(** The scope of a function made by the Function constructor and called
    once: its parameters, bound to the arguments, in front of the global
    environment of the realm. *)
Record Scope : Type := mkScope {
  parameters : list (string * JSValue);
  globalEnv : gmap string JSValue
}.

Fixpoint assoc (x : string) (l : list (string * JSValue)) : option JSValue :=
  match l with
  | [] => None
  | (y, v) :: l' => if String.eqb x y then Some v else assoc x l'
  end.

(** ResolveBinding for an identifier the function body leaves free. *)
Definition resolve (sc : Scope) (x : string) : option JSValue :=
  match assoc x (parameters sc) with
  | Some v => Some v
  | None => globalEnv sc !! x
  end.

(** *** executeThreeJSCode *)

Definition indent (n : nat) (s : jsstring) : jsstring :=
  repeat 32 n ++ s ++ [newline].

Definition functionBody (codeString : jsstring) : jsstring :=
  [newline]
  ++ indent 12 ([dquote] ++ lit "use strict" ++ [dquote] ++ lit ";")
  ++ indent 12 codeString
  ++ indent 12 (lit "if (typeof createObject !== 'function') {")
  ++ indent 16 (lit "throw new Error('createObject function not found');")
  ++ indent 12 (lit "}")
  ++ indent 12 (lit "return createObject();")
  ++ repeat 32 8.

Inductive Outcome : Type :=
| Returned (v : JSValue)
| Raised (message : jsstring)   (* an error with this message *)
| Rethrown (text : jsstring)
    (* the caught value itself, its message no string; String(message) *)
| RaisedTypeError.
    (* the handler itself failed at error.message.includes *)

Record Run : Type := mkRun {
  outcome : Outcome;
  evaluations : nat    (* how often the built function was made and called *)
}.

Definition sandboxScope (THREE : JSValue) (globals : gmap string JSValue)
  : Scope :=
  mkScope [("THREE"%string, THREE)] globals.

Definition kindOf (result : JSValue) : jsstring :=
  match constructorNameOf result with
  | Some n => n
  | None => typeOf result
  end.

(** The body of the [try] block after the call, as a completion. *)
Definition checkResult (c : Completion) : Completion :=
  match c with
  | Abrupt t => Abrupt t
  | Normal result =>
      if negb (truthy result)
      then Abrupt (WithMessage (lit "createObject() returned null or undefined"))
      else if negb (isObject3D result)
      then Abrupt (WithMessage
                     (lit "Expected THREE.Object3D but got " ++ kindOf result))
      else Normal result
  end.

(** The [catch] block. *)
Definition handler (c : Completion) : Outcome :=
  match c with
  | Normal v => Returned v
  | Abrupt (WithMessage m) =>
      if includes m (lit "Security violation")
      then Raised m
      else Raised (lit "Code execution failed: " ++ m)
  | Abrupt (WithOtherMessage found text) =>
      if found
      then Rethrown text
      else Raised (lit "Code execution failed: " ++ text)
  | Abrupt (WithPlainMessage _) | Abrupt Nullish => RaisedTypeError
  end.

Section Executor.

(** The host: [new Function(...)] on the given body, called in the given
    scope. *)
Variable evalFunction : Scope -> jsstring -> Completion.
Variable THREE : JSValue.
Variable globals : gmap string JSValue.

Definition executeThreeJSCode (codeString : jsstring) : Run :=
  let validation := validateCode codeString in
  if negb (valid validation)
  then mkRun (match error validation with
              | Some m => Raised m
              | None => Raised (lit "null")
              end) 0
  else
    let result :=
      evalFunction (sandboxScope THREE globals) (functionBody codeString) in
    mkRun (handler (checkResult result)) 1.

End Executor.

(** *** cleanCode *)

Definition fence : list regex := chars "```".

Definition codeBlock : RegExp :=
  re "```(?:javascript|js)?\n?([\s\S]*?)```" false
     (fence
      ++ [ROpt (RAlt (seq (chars "javascript")) (seq (chars "js")));
          ROpt (RChar newline);
          RGroup (RLazyStar RAny)]
      ++ fence).

(** [None] stands for the TypeError of calling [trim] on [undefined]. *)
Definition cleanCode (rawCode : jsstring) : option jsstring :=
  let code :=
    match exec codeBlock rawCode with
    | Some m => cap1 m
    | None => Some rawCode
    end in
  match code with
  | Some c => Some (trim c)
  | None => None
  end.

End Sandbox.

(** ** src/components/viewer.js and src/utils/exporters.js *)

Module Scene.

(** The material classes the sources name; [isShadowMaterial] is set by
    the library on a ShadowMaterial only. *)
Inductive Material : Type :=
| MeshStandardMaterial
| MeshPhongMaterial
| MeshLambertMaterial
| MeshBasicMaterial
| LineBasicMaterial
| ShadowMaterial.

Definition mat_isShadowMaterial (m : Material) : bool :=
  match m with ShadowMaterial => true | _ => false end.

(** An Object3D, by the properties the exporters read of a top-level child
    of the scene; [tag] tells two objects of one class apart. *)
Record Object3D : Type := mkObject3D {
  tag : nat;
  isGridHelper : bool;
  isLight : bool;
  isShadowMaterial : bool;
  material : option Material;
  isMesh : bool;
  isGroup : bool
}.

(** The library's constructors, as far as these properties go. *)
Definition Light (t : nat) : Object3D :=
  mkObject3D t false true false None false false.
Definition Mesh (t : nat) (m : Material) : Object3D :=
  mkObject3D t false false false (Some m) true false.
Definition Group (t : nat) : Object3D :=
  mkObject3D t false false false None false true.
(** A GridHelper is a line object; whether the library marks it with
    [isGridHelper] is left open. *)
Definition GridHelper (t : nat) (marked : bool) : Object3D :=
  mkObject3D t marked false false (Some LineBasicMaterial) false false.

(** The Scene object of the viewer, an Object3D as well: no mesh, no
    group, no light, without a material. *)
Definition theScene : Object3D :=
  mkObject3D 0 false false false None false false.

(** [child.clone()]: a copy with the same properties. *)
Definition clone (o : Object3D) : Object3D := o.

#[export] Instance Material_eq_dec : EqDecision Material.
Proof. solve_decision. Defined.

#[export] Instance Object3D_eq_dec : EqDecision Object3D.
Proof. solve_decision. Defined.

(** [Object3D.remove]: the first child that is the object is taken out.
    Two objects are the same when all their properties, the tag among
    them, are. *)
Fixpoint remove (object : Object3D) (children : list Object3D)
  : list Object3D :=
  match children with
  | [] => []
  | c :: cs => if decide (c = object) then cs else c :: remove object cs
  end.

(** [Object3D.add] on the scene: the scene is not added to itself; an object
    that is a child already is taken out first, and so moves to the end.
    (An object taken from another parent leaves the top-level children as
    they are.) *)
Definition add (object : Object3D) (children : list Object3D)
  : list Object3D :=
  if decide (object = theScene) then children
  else remove object children ++ [object].

(** SceneViewer: [init] (setupLighting, then setupGrid) and [addObject]. *)
Record SceneViewer : Type := mkViewer {
  scene : list Object3D;        (* scene.children *)
  userObjects : list Object3D
}.

Definition setupLighting : list Object3D :=
  [Light 0; Light 1; Light 2; Light 3].   (* ambient, key, fill, rim *)

Definition setupGrid (marked : bool) : list Object3D :=
  [GridHelper 4 marked; Mesh 5 ShadowMaterial].   (* grid, ground *)

Definition infrastructure (marked : bool) : list Object3D :=
  setupLighting ++ setupGrid marked.

Definition init (marked : bool) : SceneViewer :=
  mkViewer (infrastructure marked) [].

(** [scene.add(object)], then [userObjects.push(object)]. Before them
    [object.traverse] sets the shadow flags of the meshes under the object,
    and after them [focusOnObject] moves the camera and the target of the
    controls: flags and camera are not part of this state. That either
    call can throw is with the caller's side, in [App.viewerAddObject]. *)
Definition addObject (object : Object3D) (v : SceneViewer) : SceneViewer :=
  mkViewer (add object (scene v)) (userObjects v ++ [object]).

(** The material kinds of the entry-point contract. *)
Definition allowedMaterial (m : Material) : bool :=
  match m with
  | MeshStandardMaterial | MeshPhongMaterial
  | MeshLambertMaterial | MeshBasicMaterial => true
  | _ => false
  end.

(** A user node: a mesh of an allowed material, or a group. *)
Inductive userNode : Object3D -> Prop :=
| user_mesh t m : allowedMaterial m = true -> userNode (Mesh t m)
| user_group t : userNode (Group t).

(** A mesh of any material but a ShadowMaterial, or a group. *)
Inductive unshadowed : Object3D -> Prop :=
| unshadowed_mesh t m : mat_isShadowMaterial m = false -> unshadowed (Mesh t m)
| unshadowed_group t : unshadowed (Group t).

(** The callback of [scene.children.forEach] in exportGLTF; [acc] is the
    children list of [exportScene]. *)
Definition gltfVisit (acc : list Object3D) (child : Object3D) : list Object3D :=
  if isGridHelper child || isLight child || isShadowMaterial child then acc
  else if match material child with
          | Some m => mat_isShadowMaterial m
          | None => false
          end then acc
  else if isMesh child || isGroup child then acc ++ [clone child]
  else acc.

Definition gltfExportScene (children : list Object3D) : list Object3D :=
  fold_left gltfVisit children [].

(** The same callback in exportOBJ. *)
Definition objVisit (acc : list Object3D) (child : Object3D) : list Object3D :=
  if isGridHelper child || isLight child then acc
  else if match material child with
          | Some m => mat_isShadowMaterial m
          | None => false
          end then acc
  else if isMesh child || isGroup child then acc ++ [clone child]
  else acc.

Definition objExportScene (children : list Object3D) : list Object3D :=
  fold_left objVisit children [].

(** The children the two callbacks let through. *)
Definition shadowed (child : Object3D) : bool :=
  match material child with
  | Some m => mat_isShadowMaterial m
  | None => false
  end.

Definition gltfKeeps (child : Object3D) : bool :=
  negb (isGridHelper child || isLight child || isShadowMaterial child)
  && negb (shadowed child) && (isMesh child || isGroup child).

Definition objKeeps (child : Object3D) : bool :=
  negb (isGridHelper child || isLight child)
  && negb (shadowed child) && (isMesh child || isGroup child).

End Scene.

(** ** The specification's own notions, to compare the code with *)

Module Spec.
Import JS Regex Sandbox.

(** A user node in the words of the export property: a mesh or a group. *)
Inductive meshOrGroup : Scene.Object3D -> Prop :=
| a_mesh t m : meshOrGroup (Scene.Mesh t m)
| a_group t : meshOrGroup (Scene.Group t).

(** A definition of the entry point with an empty parameter list:
    [function], the name, and [()], with white space as the language
    allows between them. *)
Definition entryPointDefinition : RegExp :=
  re "\bfunction\s+createObject\s*\(\s*\)" false
     ([RBoundary] ++ chars "function" ++ [RPlus RWhite] ++ chars "createObject"
      ++ [RStar RWhite; RChar 40; RStar RWhite; RChar 41]).

Definition definesEntryPoint (code : jsstring) : bool :=
  test entryPointDefinition code.

(** The text before the first closing marker, if there is one. *)
Fixpoint beforeFence (s : jsstring) : option jsstring :=
  if startsWith s (lit "```") then Some []
  else match s with
       | [] => None
       | c :: t => option_map (cons c) (beforeFence t)
       end.

Definition dropPrefix (p s : jsstring) : jsstring :=
  if startsWith s p then drop (length p) s else s.

(** A fenced block that starts at the head of [s], with a hint taken off
    by [dropHint]: the marker, the hint, one newline, the inner text, the
    marker. *)
Definition blockAt (dropHint : jsstring -> jsstring) (s : jsstring)
  : option jsstring :=
  if startsWith s (lit "```")
  then beforeFence (dropPrefix [newline] (dropHint (drop 3 s)))
  else None.

(** The inner text of the first fenced block of [s]. *)
Fixpoint firstBlock (dropHint : jsstring -> jsstring) (s : jsstring)
  : option jsstring :=
  match blockAt dropHint s with
  | Some inner => Some inner
  | None =>
      match s with
      | [] => None
      | _ :: t => firstBlock dropHint t
      end
  end.

(** Any language hint: the word that follows the opening marker. *)
Fixpoint anyHint (s : jsstring) : jsstring :=
  match s with
  | c :: t => if isWordChar c then anyHint t else s
  | [] => []
  end.

(** The hints the source names. *)
Definition jsHint (s : jsstring) : jsstring :=
  if startsWith s (lit "javascript") then drop 10 s
  else if startsWith s (lit "js") then drop 2 s
  else s.

Definition extract (dropHint : jsstring -> jsstring) (text : jsstring)
  : jsstring :=
  trim (match firstBlock dropHint text with
        | Some inner => inner
        | None => text
        end).

(** [wrap_in_fence] of the round trip. *)
Definition wrapInFence (x : jsstring) : jsstring :=
  lit "```javascript" ++ [newline] ++ x ++ [newline] ++ lit "```".

End Spec.

(** ** Derived forms of the matcher, used to reason about it *)

Module Derived.
Import JS Regex.

(** The code unit before the index, once [w] has been read. *)
Fixpoint prevAfter (before : option N) (w : jsstring) : option N :=
  match w with
  | [] => before
  | x :: w' => prevAfter (Some x) w'
  end.

(** A run of pattern characters, read off the input. *)
Fixpoint consume (ic : bool) (cs : list N) (st : MatchState)
  : option MatchState :=
  match cs with
  | [] => Some st
  | c :: cs' =>
      match rest st with
      | [] => None
      | x :: t =>
          if canonicalize ic x =? canonicalize ic c
          then consume ic cs' (mkState (Some x) t (cap1 st))
          else None
      end
  end.

(** The first index, from the current one on, at which [k] succeeds. *)
Fixpoint firstSuffix (k : Cont) (before : option N) (r : jsstring)
  (cap : option jsstring) : option MatchState :=
  match k (mkState before r cap) with
  | Some m => Some m
  | None =>
      match r with
      | [] => None
      | x :: t => firstSuffix k (Some x) t cap
      end
  end.

(** What the code-block pattern has after the hint. *)
Definition afterHint : list regex :=
  [ROpt (RChar newline); RGroup (RLazyStar RAny)] ++ map RChar (lit "```").

(** Equal up to the case of ASCII letters. *)
Definition sameIgnoringCase (a b : jsstring) : Prop :=
  map (canonicalize true) a = map (canonicalize true) b.

(** No word character at the end of [pre], none at the start of [post]:
    a word between them stands alone. *)
Definition endsWord (pre : jsstring) : bool :=
  negb (isWordOpt (prevAfter None pre)).
Definition startsWord (post : jsstring) : bool :=
  negb (isWordOpt (head post)).

(** A rejection by a rule of the deny list. *)
Definition securityRejected (r : Sandbox.ValidationResult) : Prop :=
  Sandbox.valid r = false /\
  exists p, p ∈ Sandbox.FORBIDDEN_PATTERNS /\
            Sandbox.error r = Some (Sandbox.securityMessage p).

End Derived.

(** ** Fragments used as inputs *)

Module Fragments.
Import JS.

Definition callsFetch : jsstring :=
  lit "function createObject() { fetch('https://example.org'); return new THREE.Group(); }".

Definition noEntryPoint : jsstring :=
  lit "const cube = new THREE.Mesh(new THREE.BoxGeometry(1, 1, 1));".

Definition redCube : jsstring :=
  lit "function createObject() {
    const geometry = new THREE.BoxGeometry(1, 1, 1);
    const material = new THREE.MeshStandardMaterial({ color: 0xff0000 });
    return new THREE.Mesh(geometry, material);
}".

(** An entry point that takes a parameter. *)
Definition sizedCube : jsstring :=
  lit "function createObject(size) { return new THREE.Mesh(new THREE.BoxGeometry(size, size, size)); }".

Definition returnsZero : jsstring :=
  lit "function createObject() { return 0; }".

(** An entry point that returns what a name of the page is bound to. *)
Definition returnsGlobal : jsstring :=
  lit "function createObject() { return sharedObject; }".

(** Only geometries, materials and grouping, with an anonymous function
    expression. *)
Definition rowOfCubes : jsstring :=
  lit "function createObject() {
    const group = new THREE.Group();
    [0, 1, 2].forEach(function (i) {
        const mesh = new THREE.Mesh(new THREE.BoxGeometry(1, 1, 1), new THREE.MeshStandardMaterial({ color: 0x00ff00 }));
        mesh.position.set(i * 2, 0, 0);
        group.add(mesh);
    });
    return group;
}".

Definition commentedChair : jsstring :=
  lit "// Prototype of a chair
function createObject() {
    return new THREE.Mesh(new THREE.BoxGeometry(1, 1, 1), new THREE.MeshBasicMaterial({ color: 0x8b4513 }));
}".

Definition pythonBlock : jsstring :=
  lit "```python" ++ [newline] ++ lit "x = 1" ++ [newline] ++ lit "```".

End Fragments.

(** ** server.js: the code taken out of the model's answer *)

Module Server.
Import JS Regex Sandbox.

(** The pattern of the [/api/generate] handler. *)
Definition javascriptBlock : RegExp :=
  re "```javascript\n([\s\S]*?)```" false
     (chars "```javascript"
      ++ [RChar newline; RGroup (RLazyStar RAny)]
      ++ fence).

(** [codeMatch ? codeMatch[1].trim() : aiResponse]; [None] stands for the
    TypeError of calling [trim] on [undefined]. *)
Definition extractCode (aiResponse : jsstring) : option jsstring :=
  match exec javascriptBlock aiResponse with
  | Some m =>
      match cap1 m with
      | Some c => Some (trim c)
      | None => None
      end
  | None => Some aiResponse
  end.

(** The same, read as a scan: the first place where the opening line
    stands and a closing marker follows. *)
Definition opening : jsstring := lit "```javascript" ++ [newline].

Definition javascriptBlockAt (s : jsstring) : option jsstring :=
  if startsWith s opening
  then Spec.beforeFence (drop (length opening) s)
  else None.

(** A text in a fence with the short hint. *)
Definition wrapInJsFence (x : jsstring) : jsstring :=
  lit "```js" ++ [newline] ++ x ++ [newline] ++ lit "```".

Fixpoint firstJavascriptBlock (s : jsstring) : option jsstring :=
  match javascriptBlockAt s with
  | Some inner => Some inner
  | None =>
      match s with
      | [] => None
      | _ :: t => firstJavascriptBlock t
      end
  end.

End Server.

(** ** src/components/chat.js: truncateCode *)

Module Chat.
Import JS.

(** [String.prototype.split] with a separator of one code unit. *)
Fixpoint split (sep : N) (s : jsstring) : list jsstring :=
  match s with
  | [] => [[]]
  | c :: t =>
      if c =? sep then [] :: split sep t
      else match split sep t with
           | l :: ls => (c :: l) :: ls
           | [] => [[c]]
           end
  end.

(** [Array.prototype.join] *)
Fixpoint join (sep : jsstring) (ls : list jsstring) : jsstring :=
  match ls with
  | [] => []
  | [l] => l
  | l :: ls' => l ++ sep ++ join sep ls'
  end.

Definition truncatedMark : jsstring := newline :: lit "// ... (truncated)".

Definition defaultMaxLines : nat := 15.

Definition truncateCode (code : jsstring) (maxLines : nat) : jsstring :=
  let lines := split newline code in
  if (maxLines <? length lines)%nat
  then join [newline] (take maxLines lines) ++ truncatedMark
  else code.

End Chat.

(** ** src/components/viewer.js: clearUserObjects *)

Module Viewer.
Import Scene.

(** The [forEach] over [userObjects], then the reset of the array
    (disposing of geometries and materials leaves the scene graph as it
    is). *)
Definition clearUserObjects (v : SceneViewer) : SceneViewer :=
  mkViewer (fold_left (fun children obj => remove obj children)
                      (userObjects v) (scene v))
           [].

Definition getUserObjects (v : SceneViewer) : list Object3D := userObjects v.
Definition getScene (v : SceneViewer) : list Object3D := scene v.

(** The states of a viewer: objects are added that are not yet in the
    scene, and the user objects are cleared. *)
Inductive reachable (marked : bool) : SceneViewer -> Prop :=
| reach_init : reachable marked (init marked)
| reach_add v object :
    reachable marked v -> object ∉ scene v ->
    reachable marked (addObject object v)
| reach_clear v :
    reachable marked v -> reachable marked (clearUserObjects v).

(** The user objects that can be children of the scene: all but the scene
    itself. *)
Definition childrenAmong (users : list Object3D) : list Object3D :=
  List.filter (fun o => negb (bool_decide (o = theScene))) users.

(** What holds of a viewer when every object added to it was a new one:
    the scene is the infrastructure followed by the user objects. *)
Definition inOrder (marked : bool) (v : SceneViewer) : Prop :=
  scene v = infrastructure marked ++ userObjects v /\
  NoDup (scene v) /\ (theScene ∉ userObjects v).

(** What holds of a viewer whatever is added to it, new or not: no child
    stands twice in the scene, the scene is no child of itself, every child
    is of the infrastructure or a user object, and every user object but
    the scene is a child. *)
Definition tidy (marked : bool) (v : SceneViewer) : Prop :=
  NoDup (scene v) /\ (theScene ∉ scene v) /\
  (forall o, o ∈ scene v -> o ∈ infrastructure marked \/ o ∈ userObjects v) /\
  (forall o, o ∈ userObjects v -> o <> theScene -> o ∈ scene v).

End Viewer.

(** ** server.js: the [/api/generate] handler *)

Module Generate.
Import JS Sandbox Server.

(** What the call to the upstream model gives: [fetch] rejects; or a
    response comes with its status and, when the status is ok, the content
    of the first choice, unless reading it throws (a body that is no JSON,
    no [choices] array, a content that is no string). *)
Inductive Payload : Type :=
| Throws (message : jsstring)
| Content (content : option jsstring).   (* choices[0]?.message?.content *)

Inductive Upstream : Type :=
| FetchFailed (message : jsstring)
| Responded (status : N) (text : jsstring) (data : Payload).

(** [Response.ok] *)
Definition ok (status : N) : bool := (200 <=? status) && (status <=? 299).

Inductive Body : Type :=
| Failure (error : jsstring) (details : option jsstring)
| Success (code rawResponse : jsstring).

Record HttpResponse : Type := mkResponse {
  status : N;
  body : Body;
  upstreamCalls : nat     (* how often the upstream model was called *)
}.

Definition configured (apiKey : option jsstring) : bool :=
  match apiKey with
  | None | Some [] => false
  | Some k => negb (bool_decide (k = lit "your_api_key_here"))
  end.

Definition internalError (details : jsstring) (calls : nat) : HttpResponse :=
  mkResponse 500 (Failure (lit "Internal server error") (Some details)) calls.

Section Handler.

Variable fetchUpstream : jsstring -> JSValue -> Upstream.

Definition generate (message : JSValue) (apiKey : option jsstring)
  : HttpResponse :=
  if negb (truthy message)
  then mkResponse 400 (Failure (lit "Message is required") None) 0
  else if negb (configured apiKey)
  then mkResponse 500
         (Failure (lit "OpenRouter API key not configured") None) 0
  else
    match fetchUpstream (default [] apiKey) message with
    | FetchFailed m => internalError m 1
    | Responded st text data =>
        if negb (ok st)
        then mkResponse st
               (Failure (lit "Failed to generate 3D code") (Some text)) 1
        else
          match data with
          | Throws m => internalError m 1
          | Content content =>
              let aiResponse :=
                match content with
                | Some (c :: s) => c :: s
                | _ => []
                end in
              match extractCode aiResponse with
              | Some code => mkResponse 200 (Success code aiResponse) 1
              | None => internalError [] 1   (* extractCode returns *)
              end
          end
    end.

End Handler.

End Generate.

(** ** src/services/api.js and src/main.js *)

Module App.
Import JS Sandbox Scene Viewer Generate.

(** What [generateCode] settles to: it throws, or it returns the body of
    an ok response, of which the caller reads [success], [code] and
    [error]. [code] is [None] when it is no string. *)
Inductive ApiResult : Type :=
| Threw (message : jsstring)
| Json (success : bool) (code : option jsstring) (error : option jsstring).

Definition orElseText (text : option jsstring) (fallback : jsstring)
  : jsstring :=
  match text with
  | Some (c :: s) => c :: s
  | _ => fallback
  end.

(** [generateCode], given the response of the server. *)
Definition generateCode (response : HttpResponse) : ApiResult :=
  if negb (ok (status response))
  then match body response with
       | Failure error _ =>
           Threw (orElseText (Some error) (lit "Failed to generate code"))
       | Success _ _ => Threw (lit "Failed to generate code")
       end
  else match body response with
       | Success code _ => Json true (Some code) None
       | Failure error _ => Json false None (Some error)
       end.

Inductive Sender : Type := User | AI.

(** A call of [addMessage]: the content, the type and the options. *)
Record Message : Type := mkMessage {
  content : jsstring;
  sender : Sender;
  code : option jsstring;
  errorText : option jsstring
}.

Definition createdText : jsstring :=
  lit "I've created your 3D model! You can rotate it by dragging, zoom with scroll, and download it using the toolbar.".
Definition issueText : jsstring :=
  lit "I encountered an issue creating that object.".
Definition nothingToExport : jsstring :=
  lit "No objects to export. Create something first!".

Record State : Type := mkApp {
  viewer : SceneViewer;
  messages : list Message;
  input : jsstring;             (* chatInput.value *)
  isLoading : bool;
  indicators : nat;             (* elements with the id typingIndicator *)
  loadingOverlay : bool;        (* loadingOverlay has the class active *)
  overlayHidden : bool;         (* viewerOverlay has the class hidden *)
  inFlight : list jsstring;     (* calls of generateCode not yet settled *)
  settled : nat                 (* calls of generateCode that have settled *)
}.

(** The state after [new App()]; whether the markup shows the overlay of
    the viewer at the start is left open. *)
Definition initial (marked hidden : bool) : State :=
  mkApp (init marked) [] [] false 0 false hidden [] 0.

(** The chat is locked, shows one typing indicator and the loading overlay
    exactly while one call of generateCode is pending, and no second call
    is pending with it. *)
Definition oneAtATime (st : State) : Prop :=
  (length (inFlight st) <= 1)%nat /\
  isLoading st = match inFlight st with [] => false | _ :: _ => true end /\
  indicators st = length (inFlight st) /\
  loadingOverlay st = isLoading st.

(** TypeErrors raised by the engine, whose text is the engine's. *)
Inductive EngineError : Type :=
| MatchOfNoString       (* rawCode.match, rawCode no string *)
| MessageOfThrown.      (* error.message.includes, no such message *)

(** What the [try] block of handleGenerate comes to. *)
Inductive Attempt : Type :=
| Created (object : JSValue) (cleanedCode : jsstring)
| Failed (message : jsstring).

Inductive Event : Type :=
| Typed (text : jsstring)     (* the user edits the input *)
| Send                        (* the send button, or Enter *)
| Settled (result : ApiResult) (* the pending generateCode settles *)
| ClearScene
| DownloadGltf
| DownloadObj.

(** What a toolbar button does besides changing the state. *)
Inductive Effect : Type :=
| Alert (text : jsstring)
| ExportGltf (exportScene : list Object3D) (filename : jsstring)
| ExportObj (exportScene : list Object3D) (filename : jsstring).

Section Attempt.

Variable evalFunction : Scope -> jsstring -> Completion.
Variable THREE : JSValue.
Variable globals : gmap string JSValue.
Variable engineText : EngineError -> jsstring.

(** The [try] block of handleGenerate, after [generateCode] settled and up
    to the call of [viewer.addObject]. *)
Definition attempt (result : ApiResult) : Attempt :=
  match result with
  | Threw m => Failed m
  | Json success code error =>
      if negb success then Failed (orElseText error (lit "Generation failed"))
      else
        match code with
        | None => Failed (engineText MatchOfNoString)
        | Some rawCode =>
            match cleanCode rawCode with
            | None => Failed (engineText MatchOfNoString)
            | Some cleanedCode =>
                match outcome (executeThreeJSCode evalFunction THREE globals
                                 cleanedCode) with
                | Returned object => Created object cleanedCode
                | Raised m => Failed m
                | Rethrown text => Failed text
                | RaisedTypeError => Failed (engineText MessageOfThrown)
                end
            end
        end
  end.

End Attempt.

Section Application.

(** The host as it is when the n-th call settles: what a fragment finds and
    makes differs from one evaluation to the next, and the same code makes
    a new object each time. *)
Variable evalFunction : nat -> Scope -> jsstring -> Completion.
Variable THREE : JSValue.
Variable globals : gmap string JSValue.
(** The scene-graph object a value that is an Object3D stands for. *)
Variable node : JSValue -> Object3D.
(** The calls of the viewer on a returned object: [None] when they return,
    as they do on an object the library made and the fragment left as it
    was; what they throw otherwise. *)
Variable traverse : JSValue -> option Thrown.
Variable focusOnObject : JSValue -> option Thrown.
Variable engineText : EngineError -> jsstring.

(** SceneViewer.addObject, with its test of the class; beside the viewer,
    what the call throws. *)
Definition viewerAddObject (object : JSValue) (v : SceneViewer)
  : SceneViewer * option Thrown :=
  if negb (isObject3D object) then (v, None)
  else
    match traverse object with
    | Some t => (v, Some t)
    | None => (addObject (node object) v, focusOnObject object)
    end.

(** The message of the [catch] block of handleGenerate for what the viewer
    threw: [options.error] is [error.message]. *)
Definition caught (t : Thrown) : list Message :=
  match t with
  | WithMessage m => [mkMessage issueText AI None (Some m)]
  | WithOtherMessage _ text => [mkMessage issueText AI None (Some text)]
  | WithPlainMessage text => [mkMessage issueText AI None text]
  | Nullish => []     (* reading error.message fails: no message is added *)
  end.

(** handleGenerate up to its [await]. *)
Definition handleGenerateBegin (message : jsstring) (st : State) : State :=
  mkApp (viewer st) (messages st) (input st)
        true (S (indicators st)) true (overlayHidden st)
        (inFlight st ++ [message]) (settled st).

(** The end of handleGenerate on every path: the typing indicator is
    removed, the messages of the path are added, and [finally] unlocks the
    chat. *)
Definition finish (v : SceneViewer) (added : list Message) (hidden : bool)
    (st : State) : State :=
  mkApp v (messages st ++ added) (input st)
        false (pred (indicators st)) false hidden
        (tail (inFlight st)) (S (settled st)).

(** handleGenerate from its [await] on: the rest of [try], [catch],
    [finally]. *)
Definition handleGenerateEnd (result : ApiResult) (st : State) : State :=
  match attempt (evalFunction (settled st)) THREE globals engineText result with
  | Created object cleanedCode =>
      match viewerAddObject object (viewer st) with
      | (v, None) =>
          finish v [mkMessage createdText AI (Some cleanedCode) None] true st
      | (v, Some t) => finish v (caught t) (overlayHidden st) st
      end
  | Failed m =>
      finish (viewer st) [mkMessage issueText AI None (Some m)]
             (overlayHidden st) st
  end.

(** ChatComponent.handleSend, with the callback it is given. *)
Definition handleSend (st : State) : State :=
  let message := trim (input st) in
  if match message with [] => true | _ => false end || isLoading st then st
  else
    handleGenerateBegin message
      (mkApp (viewer st)
             (messages st ++ [mkMessage message User None None])
             [] (isLoading st) (indicators st) (loadingOverlay st)
             (overlayHidden st) (inFlight st) (settled st)).

Definition step (e : Event) (st : State) : State :=
  match e with
  | Typed text =>
      mkApp (viewer st) (messages st) text (isLoading st) (indicators st)
            (loadingOverlay st) (overlayHidden st) (inFlight st) (settled st)
  | Send => handleSend st
  | Settled result =>
      match inFlight st with
      | [] => st
      | _ :: _ => handleGenerateEnd result st
      end
  | ClearScene =>
      mkApp (clearUserObjects (viewer st)) (messages st) (input st)
            (isLoading st) (indicators st) (loadingOverlay st) false
            (inFlight st) (settled st)
  | DownloadGltf | DownloadObj => st
  end.

(** The two download buttons. *)
Definition effect (e : Event) (st : State) : option Effect :=
  match e with
  | DownloadGltf =>
      match getUserObjects (viewer st) with
      | [] => Some (Alert nothingToExport)
      | _ :: _ =>
          Some (ExportGltf (gltfExportScene (getScene (viewer st)))
                           (lit "3d-forge-model.gltf"))
      end
  | DownloadObj =>
      match getUserObjects (viewer st) with
      | [] => Some (Alert nothingToExport)
      | _ :: _ =>
          Some (ExportObj (objExportScene (getScene (viewer st)))
                          (lit "3d-forge-model.obj"))
      end
  | _ => None
  end.

Definition run (events : list Event) (st : State) : State :=
  fold_left (fun s e => step e s) events st.

(** An object that settles into the scene is a new one: no child of the
    scene yet, and not the scene. *)
Definition fresh (e : Event) (st : State) : Prop :=
  match e with
  | Settled result =>
      match inFlight st,
            attempt (evalFunction (settled st)) THREE globals engineText result
      with
      | _ :: _, Created object _ =>
          (node object ∉ scene (viewer st)) /\ node object <> theScene
      | _, _ => True
      end
  | _ => True
  end.

Fixpoint allFresh (events : list Event) (st : State) : Prop :=
  match events with
  | [] => True
  | e :: es => fresh e st /\ allFresh es (step e st)
  end.

End Application.

End App.

(** * Properties *)

(** ** Strings *)

Module JSFacts.
Import JS.

Lemma startsWith_nil (s : jsstring) : startsWith s [] = true.
Proof. by destruct s. Qed.

Lemma startsWith_split (p s : jsstring) :
  startsWith s p = true -> s = p ++ drop (length p) s.
Proof.
  revert s. induction p as [|y p IH]; intros [|x s]; simpl; try done.
  intros [Hxy Hs]%andb_prop. apply N.eqb_eq in Hxy as ->.
  f_equal. by apply IH.
Qed.

Lemma startsWith_app (p s t : jsstring) : startsWith (p ++ t) p = true.
Proof.
  induction p as [|y p IH]; simpl; [apply startsWith_nil|].
  by rewrite N.eqb_refl.
Qed.

Lemma startsWith_app_l (s t p : jsstring) :
  startsWith s p = true -> startsWith (s ++ t) p = true.
Proof.
  intros H. rewrite (startsWith_split _ _ H), <- app_assoc.
  apply startsWith_app; exact [].
Qed.

(** A pattern free of [c] cannot straddle a [c] of the subject. *)
Lemma startsWith_sep (c : N) (p x y : jsstring) :
  Forall (fun q => q <> c) p ->
  startsWith (x ++ c :: y) p = true -> startsWith x p = true.
Proof.
  intros Hp. revert x. induction Hp as [|q p Hq Hp IH]; intros x.
  - intros _. apply startsWith_nil.
  - destruct x as [|a x]; simpl.
    + intros [Hc _]%andb_prop. apply N.eqb_eq in Hc. congruence.
    + intros [Ha Hx]%andb_prop. rewrite Ha. simpl. by apply IH.
Qed.

Lemma includes_cons (c : N) (s sub : jsstring) :
  includes (c :: s) sub = startsWith (c :: s) sub || includes s sub.
Proof. done. Qed.

Lemma includes_app_r (a b sub : jsstring) :
  includes b sub = true -> includes (a ++ b) sub = true.
Proof.
  intros H. induction a as [|c a IH]; [done|].
  simpl app. rewrite includes_cons, IH. apply orb_true_r.
Qed.

Lemma includes_app_l (a b sub : jsstring) :
  includes a sub = true -> includes (a ++ b) sub = true.
Proof.
  induction a as [|c a IH].
  - destruct sub; [by destruct b|done].
  - simpl app. rewrite !includes_cons.
    intros [H|H]%orb_prop.
    + change (c :: a ++ b) with ((c :: a) ++ b).
      by rewrite (startsWith_app_l _ _ _ H).
    + rewrite (IH H). apply orb_true_r.
Qed.

Lemma includes_infix (l s r sub : jsstring) :
  includes (l ++ s ++ r) sub = false -> includes s sub = false.
Proof.
  intros H. destruct (includes s sub) eqn:E; [|done].
  rewrite includes_app_r in H; [done|]. by apply includes_app_l.
Qed.

(** *** trim *)

Lemma trimStart_suffix (s : jsstring) : exists a, s = a ++ trimStart s.
Proof.
  induction s as [|c s [a IH]]; simpl.
  - by exists [].
  - destruct (isWhiteSpace c).
    + exists (c :: a). simpl. by f_equal.
    + by exists [].
Qed.

Lemma trimEnd_prefix (s : jsstring) : exists b, s = trimEnd s ++ b.
Proof.
  unfold trimEnd. destruct (trimStart_suffix (rev s)) as [a Ha].
  exists (rev a). rewrite <- rev_app_distr, <- Ha. by rewrite rev_involutive.
Qed.

Lemma trim_infix (s : jsstring) : exists l r, s = l ++ trim s ++ r.
Proof.
  unfold trim. destruct (trimStart_suffix s) as [l Hl].
  destruct (trimEnd_prefix (trimStart s)) as [r Hr].
  exists l, r. by rewrite <- Hr.
Qed.

Lemma trimStart_idem (s : jsstring) : trimStart (trimStart s) = trimStart s.
Proof.
  induction s as [|c s IH]; simpl; [done|].
  destruct (isWhiteSpace c) eqn:E; [done|]. simpl. by rewrite E.
Qed.

Lemma trimStart_app (s t : jsstring) :
  trimStart (s ++ t) =
  match trimStart s with [] => trimStart t | _ => trimStart s ++ t end.
Proof.
  induction s as [|c s IH]; simpl; [done|].
  by destruct (isWhiteSpace c).
Qed.

Lemma trimStart_head (s : jsstring) (c : N) (u : jsstring) :
  trimStart s = c :: u -> isWhiteSpace c = false.
Proof.
  induction s as [|x s IH]; simpl; [done|].
  destruct (isWhiteSpace x) eqn:E; [done|]. congruence.
Qed.

Lemma trimEnd_idem (s : jsstring) : trimEnd (trimEnd s) = trimEnd s.
Proof. unfold trimEnd. by rewrite rev_involutive, trimStart_idem. Qed.

(** trimEnd keeps a first character that is no white space. *)
Lemma trimEnd_cons (c : N) (u : jsstring) :
  isWhiteSpace c = false -> exists v, trimEnd (c :: u) = c :: v.
Proof.
  intros Hc. unfold trimEnd. simpl rev. rewrite trimStart_app.
  destruct (trimStart (rev u)) as [|d w] eqn:E.
  - simpl. rewrite Hc. by exists [].
  - exists (rev (d :: w)). by rewrite rev_app_distr.
Qed.

Theorem trim_idem (s : jsstring) : trim (trim s) = trim s.
Proof.
  unfold trim. destruct (trimStart s) as [|c u] eqn:E; [done|].
  destruct (trimEnd_cons c u (trimStart_head _ _ _ E)) as [v Hv].
  assert (trimStart (trimEnd (c :: u)) = trimEnd (c :: u)) as ->.
  { rewrite Hv. simpl. by rewrite (trimStart_head _ _ _ E). }
  apply trimEnd_idem.
Qed.

Lemma trim_snoc_ws (s : jsstring) (c : N) :
  isWhiteSpace c = true -> trim (s ++ [c]) = trim s.
Proof.
  intros Hc. unfold trim. rewrite trimStart_app.
  destruct (trimStart s) as [|d u] eqn:E.
  - simpl. by rewrite Hc.
  - unfold trimEnd. rewrite rev_app_distr. simpl rev at 2. simpl app.
    simpl trimStart. by rewrite Hc.
Qed.

End JSFacts.

(** ** The matcher *)

Module RegexFacts.
Import JS Regex Derived.

Lemma orElse_None_r (a : option MatchState) : orElse a None = a.
Proof. by destruct a. Qed.

Lemma rmatch_chars (ic : bool) (cs : list N) (more : list regex)
    (st : MatchState) (k : Cont) :
  rmatch ic (seq (map RChar cs ++ more)) st k =
  match consume ic cs st with
  | Some st' => rmatch ic (seq more) st' k
  | None => None
  end.
Proof.
  revert st. induction cs as [|c cs IH]; intros st; [done|].
  simpl. unfold charMatcher. destruct (rest st) as [|x t]; [done|].
  destruct (_ =? _); [|done]. apply IH.
Qed.

Lemma rmatch_chars_end (ic : bool) (cs : list N) (st : MatchState) (k : Cont) :
  rmatch ic (seq (map RChar cs)) st k =
  match consume ic cs st with
  | Some st' => k st'
  | None => None
  end.
Proof.
  rewrite <- (app_nil_r (map RChar cs)), rmatch_chars.
  by destruct (consume ic cs st).
Qed.

(** Case-sensitive reading is [startsWith]. *)
Lemma consume_exact (cs : list N) (p : option N) (s : jsstring)
    (c : option jsstring) :
  consume false cs (mkState p s c) =
  if startsWith s cs
  then Some (mkState (prevAfter p (take (length cs) s)) (drop (length cs) s) c)
  else None.
Proof.
  revert p s. induction cs as [|y cs IH]; intros p s.
  - simpl. by rewrite JSFacts.startsWith_nil.
  - destruct s as [|x s]; [done|].
    change (consume false (y :: cs) (mkState p (x :: s) c))
      with (if x =? y then consume false cs (mkState (Some x) s c) else None).
    simpl startsWith. destruct (x =? y); [|done]. simpl. apply IH.
Qed.

Lemma ltb_tail (x : N) (t : jsstring) :
  (length t <? length (x :: t))%nat = true.
Proof. apply Nat.ltb_lt. simpl. lia. Qed.

Lemma repeatMatcher_S (m : Matcher) (greedy : bool) (f : nat)
    (st : MatchState) (k : Cont) :
  repeatMatcher m greedy (S f) st k =
  let iter := m st (fun st' =>
    if (length (rest st') <? length (rest st))%nat
    then repeatMatcher m greedy f st' k else None) in
  if greedy then orElse iter (k st) else orElse (k st) iter.
Proof. done. Qed.

Lemma charMatcher_cons (q : N -> bool) (p : option N) (x : N) (t : jsstring)
    (cap : option jsstring) (k : Cont) :
  charMatcher q (mkState p (x :: t) cap) k =
  if q x then k (mkState (Some x) t cap) else None.
Proof. done. Qed.

Lemma charMatcher_nil (q : N -> bool) (p : option N)
    (cap : option jsstring) (k : Cont) :
  charMatcher q (mkState p [] cap) k = None.
Proof. done. Qed.

(** Every starred atom of the source reads one character, so the loop
    ends before the fuel does: any fuel above the length of the input
    gives the same result. *)
Lemma repeat_char_fuel (q : N -> bool) (greedy : bool) (f1 f2 : nat)
    (st : MatchState) (k : Cont) :
  (length (rest st) < f1)%nat -> (length (rest st) < f2)%nat ->
  repeatMatcher (charMatcher q) greedy f1 st k
  = repeatMatcher (charMatcher q) greedy f2 st k.
Proof.
  revert f2 st. induction f1 as [|f1 IH]; intros [|f2] [p r cap] H1 H2;
    try (simpl in *; lia).
  rewrite !repeatMatcher_S. cbv zeta. destruct r as [|x t].
  - by rewrite !charMatcher_nil.
  - rewrite !charMatcher_cons. cbn [rest]. rewrite ltb_tail.
    destruct (q x); [|done].
    rewrite (IH f2) by (simpl in *; lia). done.
Qed.

(** The lazy star over any character tries every index in turn. *)
Lemma lazy_any (ic : bool) (fuel : nat) (p : option N) (r : jsstring)
    (cap : option jsstring) (k : Cont) :
  (length r < fuel)%nat ->
  repeatMatcher (rmatch ic RAny) false fuel (mkState p r cap) k =
  firstSuffix k p r cap.
Proof.
  revert p r. induction fuel as [|f IH]; intros p r Hlen; [lia|].
  rewrite repeatMatcher_S. cbv zeta.
  change (rmatch ic RAny) with (charMatcher (fun _ => true)).
  destruct r as [|x t].
  - rewrite charMatcher_nil. simpl. by destruct (k _).
  - rewrite charMatcher_cons. simpl rest. rewrite ltb_tail.
    change (charMatcher (fun _ => true)) with (rmatch ic RAny).
    rewrite IH by (simpl in Hlen; lia).
    simpl. by destruct (k _).
Qed.

(** The greedy star over white space can read a whole run of it. *)
Lemma star_white_skip (ic : bool) (ws r : jsstring) (fuel : nat)
    (p : option N) (cap : option jsstring) (k : Cont) (m : MatchState) :
  Forall (fun c => isWhiteSpace c = true) ws ->
  (length ws < fuel)%nat ->
  k (mkState (prevAfter p ws) r cap) = Some m ->
  is_Some (repeatMatcher (rmatch ic RWhite) true fuel (mkState p (ws ++ r) cap) k).
Proof.
  intros Hws. revert fuel p.
  induction Hws as [|c ws Hc Hws IH]; intros fuel p Hlen Hk;
    (destruct fuel as [|f]; [simpl in Hlen; lia|]).
  - rewrite repeatMatcher_S. cbv zeta. simpl in Hk. simpl app. rewrite Hk.
    destruct (rmatch _ _ _ _); by eexists.
  - rewrite repeatMatcher_S. cbv zeta.
    change (rmatch ic RWhite) with (charMatcher isWhiteSpace).
    simpl app. rewrite charMatcher_cons, Hc. simpl rest. rewrite ltb_tail.
    destruct (IH f (Some c)) as [y Hy]; [simpl in Hlen; lia|exact Hk|].
    change (charMatcher isWhiteSpace) with (rmatch ic RWhite).
    rewrite Hy. by eexists.
Qed.

Lemma execFrom_eq (re : RegExp) (before : option N) (s : jsstring) :
  execFrom re before s =
  match rmatch (ignoreCase re) (pattern re) (mkState before s None) Some with
  | Some st => Some st
  | None =>
      match s with
      | [] => None
      | x :: t => execFrom re (Some x) t
      end
  end.
Proof. by destruct s. Qed.

(** A match at some index makes [exec] succeed. *)
Lemma execFrom_found (re : RegExp) (pre s : jsstring) (before : option N)
    (m : MatchState) :
  rmatch (ignoreCase re) (pattern re)
         (mkState (prevAfter before pre) s None) Some = Some m ->
  is_Some (execFrom re before (pre ++ s)).
Proof.
  revert before. induction pre as [|c pre IH]; intros before H.
  - simpl in H. simpl app. rewrite execFrom_eq, H. by eexists.
  - simpl app. rewrite execFrom_eq.
    destruct (rmatch _ _ (mkState before _ _) _); [by eexists|].
    by apply IH.
Qed.

Lemma test_found (re : RegExp) (pre s : jsstring) (m : MatchState) :
  rmatch (ignoreCase re) (pattern re)
         (mkState (prevAfter None pre) s None) Some = Some m ->
  test re (pre ++ s) = true.
Proof.
  intros H. unfold test, exec.
  by destruct (execFrom_found re pre s None m H) as [y ->].
Qed.

(** Reading a word that equals the pattern's up to case. *)
Lemma consume_ignoring_case (cs w r : jsstring) (p : option N)
    (cap : option jsstring) :
  sameIgnoringCase w cs -> w <> [] ->
  consume true cs (mkState p (w ++ r) cap)
  = Some (mkState (prevAfter p w) r cap).
Proof.
  unfold sameIgnoringCase. revert w p.
  induction cs as [|c cs IH]; intros [|x w] p Heq Hne; try done.
  simpl in Heq. injection Heq as Hx Hw.
  change (consume true (c :: cs) (mkState p ((x :: w) ++ r) cap))
    with (if canonicalize true x =? canonicalize true c
          then consume true cs (mkState (Some x) (w ++ r) cap) else None).
  rewrite Hx, N.eqb_refl. destruct w as [|y w].
  - destruct cs; [done|discriminate].
  - by apply (IH (y :: w)).
Qed.

End RegexFacts.

(** ** cleanCode against the first fenced block *)

Module CleanCodeFacts.
Import JS Regex Derived Sandbox Spec JSFacts RegexFacts.

Lemma beforeFence_eq (s : jsstring) :
  beforeFence s =
  if startsWith s (lit "```") then Some []
  else match s with
       | [] => None
       | c :: t => option_map (cons c) (beforeFence t)
       end.
Proof. by destruct s. Qed.

Lemma firstSuffix_eq (k : Cont) (p : option N) (r : jsstring)
    (cap : option jsstring) :
  firstSuffix k p r cap =
  match k (mkState p r cap) with
  | Some m => Some m
  | None =>
      match r with
      | [] => None
      | x :: t => firstSuffix k (Some x) t cap
      end
  end.
Proof. by destruct r. Qed.

Lemma firstBlock_eq (h : jsstring -> jsstring) (s : jsstring) :
  firstBlock h s =
  match blockAt h s with
  | Some inner => Some inner
  | None =>
      match s with
      | [] => None
      | _ :: t => firstBlock h t
      end
  end.
Proof. by destruct s. Qed.

(** The closing marker after the lazy group: the capture is the text
    before the first marker. *)
Lemma firstSuffix_fence (r0 r pre : jsstring) (p : option N) :
  r0 = pre ++ r ->
  option_map cap1
    (firstSuffix
       (fun st' => rmatch false (seq fence)
          (mkState (prev st') (rest st')
             (Some (take (length r0 - length (rest st')) r0))) Some)
       p r None)
  = option_map (fun c => Some (pre ++ c)) (beforeFence r).
Proof.
  revert pre p. induction r as [|x t IH]; intros pre p ->;
    rewrite firstSuffix_eq, beforeFence_eq; unfold fence, chars;
    rewrite rmatch_chars_end, consume_exact; simpl rest.
  - done.
  - destruct (startsWith (x :: t) (lit "```")) eqn:E.
    + cbn [option_map cap1]. do 2 f_equal. rewrite app_nil_r.
      apply take_app_length'. rewrite length_app. lia.
    + fold (chars "```"). fold fence.
      rewrite (IH (pre ++ [x]) (Some x)) by (by rewrite <- app_assoc).
      destruct (beforeFence t); simpl; [|done]. by rewrite <- app_assoc.
Qed.

Lemma group_lazy_fence (p : option N) (r : jsstring) :
  option_map cap1
    (rmatch false (seq ([RGroup (RLazyStar RAny)] ++ fence))
            (mkState p r None) Some)
  = option_map Some (beforeFence r).
Proof.
  change (rmatch false (seq ([RGroup (RLazyStar RAny)] ++ fence))
            (mkState p r None) Some)
    with (repeatMatcher (rmatch false RAny) false (S (length r))
            (mkState p r None)
            (fun st' => rmatch false (seq fence)
               (mkState (prev st') (rest st')
                  (Some (take (length r - length (rest st')) r))) Some)).
  rewrite lazy_any by lia.
  rewrite (firstSuffix_fence r r [] p) by done.
  by destruct (beforeFence r).
Qed.

(** A character that is no backtick cannot start a marker. *)
Lemma beforeFence_cons (x : N) (r : jsstring) :
  x <> backtick -> beforeFence (x :: r) = option_map (cons x) (beforeFence r).
Proof.
  intros Hx. rewrite beforeFence_eq.
  assert (startsWith (x :: r) (lit "```") = false) as ->; [|done].
  change (lit "```") with [backtick; backtick; backtick]. simpl.
  by destruct (N.eqb_spec x backtick).
Qed.

Lemma beforeFence_skip (h r : jsstring) :
  Forall (fun x => x <> backtick) h ->
  beforeFence (h ++ r) = option_map (app h) (beforeFence r).
Proof.
  induction 1 as [|x h Hx Hh IH]; simpl app.
  - by destruct (beforeFence r).
  - rewrite beforeFence_cons, IH by done. by destruct (beforeFence r).
Qed.

Lemma dropPrefix_newline (r : jsstring) :
  exists h, Forall (fun x => x <> backtick) h /\ r = h ++ dropPrefix [newline] r.
Proof.
  unfold dropPrefix. destruct (startsWith r [newline]) eqn:E.
  - exists [newline]. split; [by repeat constructor|].
    by apply startsWith_split.
  - by exists [].
Qed.

Lemma jsHint_prefix (r : jsstring) :
  exists h, Forall (fun x => x <> backtick) h /\ r = h ++ jsHint r.
Proof.
  unfold jsHint. destruct (startsWith r (lit "javascript")) eqn:E.
  - exists (lit "javascript"). split; [by repeat constructor|].
    by apply startsWith_split in E.
  - destruct (startsWith r (lit "js")) eqn:E'.
    + exists (lit "js"). split; [by repeat constructor|].
      by apply startsWith_split in E'.
    + by exists [].
Qed.

(** Reading less of the opening cannot bring a closing marker in reach. *)
Lemma beforeFence_None_back (h r : jsstring) :
  Forall (fun x => x <> backtick) h ->
  beforeFence r = None -> beforeFence (h ++ r) = None.
Proof. intros Hh Hr. by rewrite beforeFence_skip, Hr. Qed.

Lemma orElse_cap1 (a b : option MatchState) (ra rb : option jsstring) :
  option_map cap1 a = option_map Some ra ->
  option_map cap1 b = option_map Some rb ->
  (ra = None -> rb = None) ->
  option_map cap1 (orElse a b) = option_map Some ra.
Proof.
  intros Ha Hb Hab. destruct a as [ma|]; [done|]. simpl.
  destruct ra; [done|]. by rewrite Hb, Hab.
Qed.

Lemma opt_newline (p : option N) (r : jsstring) :
  option_map cap1
    (rmatch false
       (seq ([ROpt (RChar newline); RGroup (RLazyStar RAny)] ++ fence))
       (mkState p r None) Some)
  = option_map Some (beforeFence (dropPrefix [newline] r)).
Proof.
  change (rmatch false
            (seq ([ROpt (RChar newline); RGroup (RLazyStar RAny)] ++ fence))
            (mkState p r None) Some)
    with (orElse
            (charMatcher (fun x => x =? newline) (mkState p r None)
               (fun st' =>
                  if (length (rest st') <? length r)%nat
                  then rmatch false (seq ([RGroup (RLazyStar RAny)] ++ fence))
                         st' Some
                  else None))
            (rmatch false (seq ([RGroup (RLazyStar RAny)] ++ fence))
               (mkState p r None) Some)).
  destruct r as [|x t]; [apply group_lazy_fence|].
  rewrite charMatcher_cons. unfold dropPrefix. simpl startsWith.
  rewrite startsWith_nil, andb_true_r.
  destruct (N.eqb_spec x newline) as [->|Hx];
    [|cbv beta iota delta [orElse]; apply group_lazy_fence].
  simpl rest. rewrite ltb_tail. cbn [drop length]. rewrite drop_0.
  apply (orElse_cap1 _ _ _ (beforeFence (newline :: t)));
    try apply group_lazy_fence.
  intros Ht. by rewrite beforeFence_cons, Ht.
Qed.

Lemma beforeFence_None_forw (h r : jsstring) :
  Forall (fun x => x <> backtick) h ->
  beforeFence (h ++ r) = None -> beforeFence r = None.
Proof.
  intros Hh. rewrite beforeFence_skip by done. by destruct (beforeFence r).
Qed.

Lemma hint_back (r : jsstring) :
  beforeFence (dropPrefix [newline] (jsHint r)) = None ->
  beforeFence (dropPrefix [newline] r) = None.
Proof.
  intros H.
  destruct (dropPrefix_newline (jsHint r)) as (h1 & Hh1 & E1).
  destruct (jsHint_prefix r) as (h2 & Hh2 & E2).
  destruct (dropPrefix_newline r) as (h3 & Hh3 & E3).
  apply (beforeFence_None_forw h3); [done|]. rewrite <- E3, E2.
  apply beforeFence_None_back; [done|]. rewrite E1.
  by apply beforeFence_None_back.
Qed.

Lemma drop_progress (p r : jsstring) :
  startsWith r p = true -> p <> [] ->
  (length (drop (length p) r) <? length r)%nat = true.
Proof.
  intros H Hp. apply Nat.ltb_lt. rewrite length_drop.
  apply startsWith_split in H. rewrite H, length_app.
  destruct p; [done|]. simpl. lia.
Qed.

Lemma opt_hint (p : option N) (r : jsstring) :
  option_map cap1
    (rmatch false
       (seq (ROpt (RAlt (seq (chars "javascript")) (seq (chars "js")))
             :: afterHint))
       (mkState p r None) Some)
  = option_map Some (beforeFence (dropPrefix [newline] (jsHint r))).
Proof.
  set (k' := fun st' : MatchState =>
         if (length (rest st') <? length r)%nat
         then rmatch false (seq afterHint) st' Some else None).
  change (rmatch false _ (mkState p r None) Some)
    with (orElse
            (orElse (rmatch false (seq (chars "javascript"))
                       (mkState p r None) k')
                    (rmatch false (seq (chars "js")) (mkState p r None) k'))
            (rmatch false (seq afterHint) (mkState p r None) Some)).
  unfold chars. rewrite !rmatch_chars_end, !consume_exact. unfold jsHint.
  destruct (startsWith r (lit "javascript")) eqn:EJ.
  - assert (startsWith r (lit "js") = false) as ->.
    { by rewrite (startsWith_split _ _ EJ). }
    unfold k'. cbn [rest]. rewrite drop_progress by done.
    apply (orElse_cap1 _ _ _ (beforeFence (dropPrefix [newline] r)));
      [|apply opt_newline|].
    + apply (orElse_cap1 _ _ _ None); [apply opt_newline|done..].
    + intros H. apply hint_back. unfold jsHint. by rewrite EJ.
  - destruct (startsWith r (lit "js")) eqn:ES.
    + unfold k'. cbn [rest]. rewrite drop_progress by done.
      apply (orElse_cap1 _ _ _ (beforeFence (dropPrefix [newline] r)));
        [apply opt_newline..|].
      intros H. apply hint_back. unfold jsHint. by rewrite EJ, ES.
    + apply opt_newline.
Qed.

Lemma codeBlock_at (p : option N) (s : jsstring) :
  option_map cap1
    (rmatch (ignoreCase codeBlock) (pattern codeBlock) (mkState p s None) Some)
  = option_map Some (blockAt jsHint s).
Proof.
  change (pattern codeBlock)
    with (seq (map RChar (lit "```")
               ++ ROpt (RAlt (seq (chars "javascript")) (seq (chars "js")))
               :: afterHint)).
  change (ignoreCase codeBlock) with false.
  rewrite rmatch_chars, consume_exact. unfold blockAt.
  destruct (startsWith s (lit "```")); [|done]. apply opt_hint.
Qed.

Lemma exec_codeBlock (p : option N) (s : jsstring) :
  option_map cap1 (execFrom codeBlock p s)
  = option_map Some (firstBlock jsHint s).
Proof.
  revert p. induction s as [|x t IH]; intros p;
    rewrite execFrom_eq, firstBlock_eq;
    pose proof (codeBlock_at p) as H;
    [specialize (H []) | specialize (H (x :: t))];
    destruct (rmatch _ _ _ _) as [m|]; destruct (blockAt jsHint _);
    simpl in H; first [done | apply IH].
Qed.

(** cleanCode returns, and what it returns is the trimmed inner text of
    the first fenced block, or the trimmed input. *)
Lemma cleanCode_extract (x : jsstring) :
  cleanCode x = Some (extract jsHint x).
Proof.
  unfold cleanCode, extract, exec.
  pose proof (exec_codeBlock None x) as H.
  destruct (execFrom codeBlock None x) as [m|];
    destruct (firstBlock jsHint x); simpl in H; try done.
  injection H as ->. done.
Qed.

(** *** The round trip through a fence *)

Lemma beforeFence_here (r : jsstring) : beforeFence (lit "```" ++ r) = Some [].
Proof. by rewrite beforeFence_eq, startsWith_app. Qed.

Lemma beforeFence_sep (x rest : jsstring) :
  includes x (lit "```") = false ->
  beforeFence (x ++ newline :: lit "```" ++ rest) = Some (x ++ [newline]).
Proof.
  induction x as [|c x IH]; intros Hx.
  - by rewrite app_nil_l, beforeFence_cons, beforeFence_here.
  - rewrite includes_cons in Hx. apply orb_false_elim in Hx as [Hc Hx].
    rewrite beforeFence_eq.
    assert (startsWith ((c :: x) ++ newline :: lit "```" ++ rest) (lit "```")
            = false) as ->.
    { destruct (startsWith (_ ++ _) _) eqn:E; [|done].
      apply startsWith_sep in E; [congruence|by repeat constructor]. }
    rewrite <- app_comm_cons. by rewrite (IH Hx).
Qed.

Lemma blockAt_wrapInFence (x : jsstring) :
  blockAt jsHint (wrapInFence x) = beforeFence (x ++ newline :: lit "```" ++ []).
Proof.
  change (wrapInFence x)
    with (lit "```" ++ lit "javascript" ++ [newline]
          ++ (x ++ newline :: lit "```" ++ [])).
  unfold blockAt, jsHint, dropPrefix.
  rewrite startsWith_app, (drop_app_length' (lit "```")) by done.
  rewrite startsWith_app, (drop_app_length' (lit "javascript")) by done.
  by rewrite startsWith_app, drop_app_length.
Qed.

Lemma extract_wrapInFence (x : jsstring) :
  includes x (lit "```") = false ->
  extract jsHint (wrapInFence x) = trim x.
Proof.
  intros Hx. unfold extract.
  rewrite firstBlock_eq, blockAt_wrapInFence, (beforeFence_sep _ _ Hx).
  by apply trim_snoc_ws.
Qed.

(** *** Extracting twice *)

Lemma beforeFence_Some_split (r c : jsstring) :
  beforeFence r = Some c -> exists rest, r = c ++ lit "```" ++ rest.
Proof.
  revert c. induction r as [|x r IH]; intros c; rewrite beforeFence_eq.
  - done.
  - destruct (startsWith (x :: r) (lit "```")) eqn:E.
    + intros [= <-]. exists (drop 3 (x :: r)). by apply startsWith_split in E.
    + destruct (beforeFence r) as [c'|]; [|done]. intros [= <-].
      destruct (IH c' eq_refl) as [rest ->]. by exists rest.
Qed.

Lemma beforeFence_no_fence (r c : jsstring) :
  beforeFence r = Some c -> includes c (lit "```") = false.
Proof.
  revert c. induction r as [|x r IH]; intros c; rewrite beforeFence_eq.
  - done.
  - destruct (startsWith (x :: r) (lit "```")) eqn:E; [by intros [= <-]|].
    destruct (beforeFence r) as [c'|] eqn:Er; [|done]. intros [= <-].
    rewrite includes_cons, (IH c' eq_refl), orb_false_r.
    destruct (beforeFence_Some_split _ _ Er) as [rest ->].
    destruct (startsWith (x :: c') _) eqn:E'; [|done].
    apply (startsWith_app_l _ (lit "```" ++ rest)) in E'.
    rewrite <- app_comm_cons in E'. congruence.
Qed.

Lemma beforeFence_is_Some (m b : jsstring) :
  is_Some (beforeFence (m ++ lit "```" ++ b)).
Proof.
  induction m as [|x m [c IH]].
  - rewrite app_nil_l, beforeFence_here. by eexists.
  - rewrite <- app_comm_cons, beforeFence_eq.
    destruct (startsWith _ _); [by eexists|]. rewrite IH. by eexists.
Qed.

Lemma no_fence_no_block (h : jsstring -> jsstring) (s : jsstring) :
  includes s (lit "```") = false -> firstBlock h s = None.
Proof.
  induction s as [|x s IH]; intros Hs; rewrite firstBlock_eq; unfold blockAt.
  - done.
  - rewrite includes_cons in Hs. apply orb_false_elim in Hs as [-> Hs].
    by apply IH.
Qed.

Lemma firstBlock_no_fence (h : jsstring -> jsstring) (s i : jsstring) :
  firstBlock h s = Some i -> includes i (lit "```") = false.
Proof.
  induction s as [|x s IH]; rewrite firstBlock_eq; unfold blockAt.
  - done.
  - destruct (startsWith (x :: s) (lit "```")); [|exact IH].
    destruct (beforeFence _) as [c|] eqn:E; [|exact IH].
    intros [= <-]. by apply beforeFence_no_fence in E.
Qed.

(** A block is two markers that do not overlap, and conversely. *)
Lemma block_two_fences (s i : jsstring) :
  firstBlock jsHint s = Some i ->
  exists a m b, s = a ++ lit "```" ++ m ++ lit "```" ++ b.
Proof.
  induction s as [|x s IH]; rewrite firstBlock_eq; unfold blockAt.
  - done.
  - assert (firstBlock jsHint s = Some i ->
            exists a m b, x :: s = a ++ lit "```" ++ m ++ lit "```" ++ b) as IH'.
    { intros (a & m & b & ->)%IH. by exists (x :: a), m, b. }
    destruct (startsWith (x :: s) (lit "```")) eqn:E; [|exact IH'].
    destruct (beforeFence _) as [c|] eqn:Ec; [|exact IH']. intros _.
    apply beforeFence_Some_split in Ec as [rest Ec].
    destruct (dropPrefix_newline (jsHint (drop 3 (x :: s)))) as (h1 & _ & E1).
    destruct (jsHint_prefix (drop 3 (x :: s))) as (h2 & _ & E2).
    exists [], (h2 ++ h1 ++ c), rest.
    rewrite (startsWith_split _ _ E) at 1.
    change (length (lit "```")) with 3%nat.
    rewrite E2 at 1. rewrite E1 at 1. rewrite Ec.
    by rewrite <- !app_assoc.
Qed.

Lemma two_fences_block (a m b : jsstring) :
  is_Some (firstBlock jsHint (a ++ lit "```" ++ m ++ lit "```" ++ b)).
Proof.
  induction a as [|x a [i IH]].
  - rewrite app_nil_l, firstBlock_eq. unfold blockAt.
    rewrite startsWith_app, (drop_app_length' (lit "```")) by done.
    destruct (beforeFence _) as [c|] eqn:E; [by eexists|].
    exfalso.
    destruct (dropPrefix_newline (jsHint (m ++ lit "```" ++ b)))
      as (h1 & Hh1 & E1).
    destruct (jsHint_prefix (m ++ lit "```" ++ b)) as (h2 & Hh2 & E2).
    apply (beforeFence_None_back h1) in E; [|done]. rewrite <- E1 in E.
    apply (beforeFence_None_back h2) in E; [|done]. rewrite <- E2 in E.
    destruct (beforeFence_is_Some m b) as [c Hc]. congruence.
  - rewrite <- app_comm_cons, firstBlock_eq.
    destruct (blockAt _ _); [by eexists|]. rewrite IH. by eexists.
Qed.

Lemma extract_idem (x : jsstring) :
  extract jsHint (extract jsHint x) = extract jsHint x.
Proof.
  unfold extract at 2 3.
  destruct (firstBlock jsHint x) as [i|] eqn:Ex.
  - unfold extract. rewrite no_fence_no_block; [apply trim_idem|].
    destruct (trim_infix i) as (l & r & Hi).
    apply (includes_infix l _ r). rewrite <- Hi.
    by apply firstBlock_no_fence in Ex.
  - unfold extract.
    destruct (firstBlock jsHint (trim x)) as [j|] eqn:Et; [|apply trim_idem].
    exfalso. apply block_two_fences in Et as (a & m & b & Et).
    destruct (trim_infix x) as (l & r & Hx).
    destruct (two_fences_block (l ++ a) m (b ++ r)) as [i Hi].
    rewrite Hx, Et in Ex. rewrite <- !app_assoc in Hi.
    repeat rewrite <- app_assoc in Ex. congruence.
Qed.

End CleanCodeFacts.

(** ** validateCode and executeThreeJSCode *)

Module SandboxFacts.
Import JS Regex Derived Sandbox Spec Fragments JSFacts RegexFacts.

Lemma scanForbidden_None (ps : list RegExp) (code : jsstring) :
  Forall (fun p => test p code = false) ps -> scanForbidden ps code = None.
Proof.
  induction 1 as [|p ps Hp _ IH]; simpl; [done|]. by rewrite Hp.
Qed.

(** The loop returns at the first rule that matches. *)
Lemma scanForbidden_first (ps : list RegExp) (code : jsstring) :
  Exists (fun p => test p code = true) ps ->
  exists l1 p l2,
    ps = l1 ++ p :: l2 /\
    Forall (fun q => test q code = false) l1 /\
    test p code = true /\
    scanForbidden ps code = Some (mkResult false (Some (securityMessage p))).
Proof.
  induction ps as [|q ps IH]; intros H; [by apply Exists_nil in H|].
  simpl. destruct (test q code) eqn:Eq.
  - by exists [], q, ps.
  - apply Exists_cons in H as [H|H]; [congruence|].
    destruct (IH H) as (l1 & p & l2 & -> & Hl1 & Hp & Hs).
    exists (q :: l1), p, l2. repeat split; try done. by constructor.
Qed.

Lemma scanForbidden_Some (ps : list RegExp) (code : jsstring)
    (r : ValidationResult) :
  scanForbidden ps code = Some r ->
  exists p, p ∈ ps /\ test p code = true
            /\ r = mkResult false (Some (securityMessage p)).
Proof.
  induction ps as [|q ps IH]; simpl; [done|].
  destruct (test q code) eqn:Eq.
  - intros [= <-]. exists q. split; [by left|done].
  - intros (p & Hp & Ht & Hr)%IH. exists p. split; [by right|done].
Qed.

(** A rejected fragment is never evaluated. *)
Lemma rejected_not_evaluated (ev : Scope -> jsstring -> Completion)
    (T : JSValue) (g : gmap string JSValue) (code reason : jsstring) :
  validateCode code = mkResult false (Some reason) ->
  executeThreeJSCode ev T g code = mkRun (Raised reason) 0.
Proof. intros H. unfold executeThreeJSCode. by rewrite H. Qed.

(** Each syntax tree of the deny list prints back to its source text. *)
Lemma sources_transcribed :
  Forall (fun p => unparse (pattern p) = source p)
         (codeBlock :: entryPointDefinition :: FORBIDDEN_PATTERNS).
Proof. repeat constructor. Qed.

Lemma messages_distinct : NoDup (map securityMessage FORBIDDEN_PATTERNS).
Proof. apply (bool_decide_unpack _). by vm_compute. Qed.

Lemma message_names_rule (p q : RegExp) :
  p ∈ FORBIDDEN_PATTERNS -> q ∈ FORBIDDEN_PATTERNS ->
  securityMessage q = securityMessage p -> q = p.
Proof.
  intros [i Hi]%list_elem_of_lookup [j Hj]%list_elem_of_lookup Heq.
  assert (i = j) as ->; [|congruence].
  apply (NoDup_lookup _ i j (securityMessage p) messages_distinct).
  - by rewrite list_lookup_fmap, Hi.
  - by rewrite list_lookup_fmap, Hj, <- Heq.
Qed.

Lemma structural_is_no_security_message (p : RegExp) :
  structuralMessage <> securityMessage p.
Proof. intros H. apply (f_equal head) in H. by vm_compute in H. Qed.

Lemma rejected_has_reason (code : jsstring) :
  valid (validateCode code) = false ->
  exists reason, validateCode code = mkResult false (Some reason).
Proof.
  unfold validateCode.
  destruct (scanForbidden FORBIDDEN_PATTERNS code) as [r|] eqn:E.
  - apply scanForbidden_Some in E as (p & _ & _ & ->). by eexists.
  - destruct (negb _); [by eexists|done].
Qed.

Ltac no_rule_matches :=
  repeat (first [apply Forall_nil_2 | apply Forall_cons_2; [by vm_compute|]]).

(** C1. A fragment that some deny-list pattern matches is rejected by
    validateCode with the message of the first pattern that matches, a
    message no other rule of the list has; executeThreeJSCode throws that
    very message, whatever the host's evaluator is, and has evaluated
    nothing. *)
Theorem deny_listed_rejected_before_evaluation (code : jsstring) :
  Exists (fun p => test p code = true) FORBIDDEN_PATTERNS ->
  exists l1 p l2,
    FORBIDDEN_PATTERNS = l1 ++ p :: l2 /\
    Forall (fun q => test q code = false) l1 /\
    test p code = true /\
    validateCode code = mkResult false (Some (securityMessage p)) /\
    (forall q, q ∈ FORBIDDEN_PATTERNS ->
               securityMessage q = securityMessage p -> q = p) /\
    (forall ev T g,
        executeThreeJSCode ev T g code = mkRun (Raised (securityMessage p)) 0).
Proof.
  intros H. destruct (scanForbidden_first _ _ H) as (l1 & p & l2 & E & Hl1 & Hp & Hs).
  assert (validateCode code = mkResult false (Some (securityMessage p))) as Hv.
  { unfold validateCode. by rewrite Hs. }
  exists l1, p, l2. repeat split; try done.
  - intros q Hq. apply message_names_rule; [|done].
    rewrite E. apply elem_of_app. right. by left.
  - intros ev T g. by apply rejected_not_evaluated.
Qed.

Lemma deny_listed_rejected_witness :
  Exists (fun p => test p callsFetch = true) FORBIDDEN_PATTERNS /\
  exists l1 p l2,
    FORBIDDEN_PATTERNS = l1 ++ p :: l2 /\
    Forall (fun q => test q callsFetch = false) l1 /\
    test p callsFetch = true /\
    validateCode callsFetch = mkResult false (Some (securityMessage p)) /\
    (forall q, q ∈ FORBIDDEN_PATTERNS ->
               securityMessage q = securityMessage p -> q = p) /\
    (forall ev T g,
        executeThreeJSCode ev T g callsFetch
        = mkRun (Raised (securityMessage p)) 0).
Proof.
  assert (Exists (fun p => test p callsFetch = true) FORBIDDEN_PATTERNS) as H.
  { apply Exists_cons_hd. vm_compute. reflexivity. }
  split; [exact H|].
  exact (deny_listed_rejected_before_evaluation callsFetch H).
Defined.

(** C3, as the code has it. When no deny-list pattern matches, validateCode
    accepts exactly the fragments that contain the text
    [function createObject]; without that text the result is the
    structural rejection, whose reason is the message of no rule. *)
Theorem structural_requirement_is_a_substring (code : jsstring) :
  Forall (fun p => test p code = false) FORBIDDEN_PATTERNS ->
  valid (validateCode code) = includes code (lit "function createObject") /\
  (includes code (lit "function createObject") = false ->
   validateCode code = mkResult false (Some structuralMessage)) /\
  (forall p, structuralMessage <> securityMessage p).
Proof.
  intros H. unfold validateCode. rewrite (scanForbidden_None _ _ H).
  split; [by destruct (includes _ _)|]. split.
  - by intros ->.
  - apply structural_is_no_security_message.
Qed.

Lemma structural_requirement_witness :
  Forall (fun p => test p noEntryPoint = false) FORBIDDEN_PATTERNS /\
  valid (validateCode noEntryPoint)
  = includes noEntryPoint (lit "function createObject") /\
  (includes noEntryPoint (lit "function createObject") = false ->
   validateCode noEntryPoint = mkResult false (Some structuralMessage)) /\
  (forall p, structuralMessage <> securityMessage p).
Proof.
  assert (Forall (fun p => test p noEntryPoint = false) FORBIDDEN_PATTERNS) as H.
  { no_rule_matches. }
  split; [exact H|].
  exact (structural_requirement_is_a_substring noEntryPoint H).
Defined.

(** C3, as stated, fails: a fragment whose entry point takes a parameter
    matches no deny-list pattern and is accepted, though it holds no
    definition of the entry point with an empty parameter list. *)
Lemma accepted_without_zero_parameter_definition :
  ~ (forall code,
        Forall (fun p => test p code = false) FORBIDDEN_PATTERNS ->
        (valid (validateCode code) = true <-> definesEntryPoint code = true)).
Proof.
  intros H. specialize (H sizedCube).
  assert (Forall (fun p => test p sizedCube = false) FORBIDDEN_PATTERNS) as Hno.
  { no_rule_matches. }
  destruct (H Hno) as [H1 _].
  assert (valid (validateCode sizedCube) = true) as Hv by (by vm_compute).
  specialize (H1 Hv). by vm_compute in H1.
Qed.

(** C5, as the code has it. executeThreeJSCode validates the fragment
    itself: whenever validateCode rejects it, for a deny-list match or for
    the missing entry point, the call throws the validator's reason and
    evaluates nothing. *)
Theorem executor_validates_first (code : jsstring) :
  valid (validateCode code) = false ->
  exists reason,
    error (validateCode code) = Some reason /\
    forall ev T g, executeThreeJSCode ev T g code = mkRun (Raised reason) 0.
Proof.
  intros [reason H]%rejected_has_reason. exists reason.
  split; [by rewrite H|]. intros ev T g. by apply rejected_not_evaluated.
Qed.

Lemma executor_validates_first_witness :
  valid (validateCode noEntryPoint) = false /\
  exists reason,
    error (validateCode noEntryPoint) = Some reason /\
    forall ev T g,
      executeThreeJSCode ev T g noEntryPoint = mkRun (Raised reason) 0.
Proof.
  assert (valid (validateCode noEntryPoint) = false) as H.
  { vm_compute. reflexivity. }
  split; [exact H|]. exact (executor_validates_first noEntryPoint H).
Defined.

(** C5, as stated, fails: on a fragment that calls fetch the executor
    fails with the validator's own reason. *)
Lemma executor_fails_with_validator_reason :
  ~ (forall ev T g code reason,
        error (validateCode code) = Some reason ->
        outcome (executeThreeJSCode ev T g code) <> Raised reason).
Proof.
  intros H.
  apply (H (fun _ _ => Normal VNull) VNull ∅ callsFetch (securityMessage pFetch)).
  - by vm_compute.
  - by vm_compute.
Qed.

(** *** The result check *)

Lemma accepted_is_evaluated (ev : Scope -> jsstring -> Completion)
    (T : JSValue) (g : gmap string JSValue) (code : jsstring) :
  valid (validateCode code) = true ->
  executeThreeJSCode ev T g code
  = mkRun (handler (checkResult (ev (sandboxScope T g) (functionBody code)))) 1.
Proof. intros H. unfold executeThreeJSCode. by rewrite H. Qed.

(** Every falsy value is reported as null or undefined. *)
Lemma falsy_result (ev : Scope -> jsstring -> Completion)
    (T : JSValue) (g : gmap string JSValue) (code : jsstring) (v : JSValue) :
  valid (validateCode code) = true ->
  ev (sandboxScope T g) (functionBody code) = Normal v ->
  truthy v = false ->
  executeThreeJSCode ev T g code
  = mkRun (Raised (lit "Code execution failed: createObject() returned null or undefined")) 1.
Proof.
  intros Hv He Hn. rewrite accepted_is_evaluated, He by done.
  unfold checkResult. by rewrite Hn.
Qed.

(** null and undefined are reported as such. *)
Lemma nullish_result (ev : Scope -> jsstring -> Completion)
    (T : JSValue) (g : gmap string JSValue) (code : jsstring) (v : JSValue) :
  valid (validateCode code) = true ->
  ev (sandboxScope T g) (functionBody code) = Normal v ->
  v = VNull \/ v = VUndefined ->
  executeThreeJSCode ev T g code
  = mkRun (Raised (lit "Code execution failed: createObject() returned null or undefined")) 1.
Proof.
  intros Hv He Hn. apply (falsy_result ev T g code v); try done.
  by destruct Hn as [-> | ->].
Qed.

(** A truthy value that is no Object3D is reported by its constructor's
    name or its type, and no node is returned. *)
Lemma wrong_kind_result (ev : Scope -> jsstring -> Completion)
    (T : JSValue) (g : gmap string JSValue) (code : jsstring) (v : JSValue) :
  valid (validateCode code) = true ->
  ev (sandboxScope T g) (functionBody code) = Normal v ->
  truthy v = true -> isObject3D v = false ->
  exists context,
    executeThreeJSCode ev T g code
    = mkRun (Raised (context ++ lit "Expected THREE.Object3D but got "
                       ++ kindOf v)) 1.
Proof.
  intros Hv He Ht Ho. rewrite accepted_is_evaluated, He by done.
  unfold checkResult. rewrite Ht, Ho. simpl negb. cbv iota. unfold handler.
  destruct (includes _ _).
  - by exists [].
  - by exists (lit "Code execution failed: ").
Qed.

(** C4, at the input where the code departs from it. The fragment is
    accepted; when its entry point returns the number 0, a value that is
    neither null nor undefined, the executor's error says that
    createObject returned null or undefined. *)
Theorem falsy_result_reported_as_null_or_undefined :
  validateCode returnsZero = mkResult true None /\
  typeOf (VNumber 0) = lit "number" /\
  forall ev T g,
    ev (sandboxScope T g) (functionBody returnsZero) = Normal (VNumber 0) ->
    executeThreeJSCode ev T g returnsZero
    = mkRun (Raised (lit "Code execution failed: createObject() returned null or undefined")) 1.
Proof.
  split; [by vm_compute|]. split; [done|]. intros ev T g He.
  rewrite accepted_is_evaluated, He by (by vm_compute). done.
Qed.

Lemma falsy_result_witness :
  (fun (_ : Scope) (_ : jsstring) => Normal (VNumber 0))
    (sandboxScope VNull ∅) (functionBody returnsZero) = Normal (VNumber 0) /\
  executeThreeJSCode (fun _ _ => Normal (VNumber 0)) VNull ∅ returnsZero
  = mkRun (Raised (lit "Code execution failed: createObject() returned null or undefined")) 1.
Proof.
  split; [reflexivity|].
  destruct falsy_result_reported_as_null_or_undefined as (_ & _ & H).
  apply (H (fun _ _ => Normal (VNumber 0)) VNull ∅). reflexivity.
Defined.

(** *** The scope of the evaluated fragment *)

Lemma object3D_is_truthy (v : JSValue) : isObject3D v = true -> truthy v = true.
Proof. by destruct v. Qed.

(** What executeThreeJSCode returns for a fragment that hands back the
    value of a name: the scope it builds has the ambient bindings behind
    THREE, so the run returns the ambient binding of the name. *)
Lemma ambient_binding_returned (ev : Scope -> jsstring -> Completion)
    (T : JSValue) (g : gmap string JSValue) (v : JSValue) :
  (forall sc w, resolve sc "sharedObject" = Some w ->
                ev sc (functionBody returnsGlobal) = Normal w) ->
  g !! "sharedObject"%string = Some v -> isObject3D v = true ->
  executeThreeJSCode ev T g returnsGlobal = mkRun (Returned v) 1.
Proof.
  intros Hev Hg Ho.
  rewrite accepted_is_evaluated by (by vm_compute).
  rewrite (Hev (sandboxScope T g) v) by (by unfold resolve; simpl).
  unfold checkResult. by rewrite (object3D_is_truthy v Ho), Ho.
Qed.

(** C2, at the input where the code departs from it. The fragment, which
    returns what the name [sharedObject] stands for, is accepted. On a host
    that evaluates the reference as the language defines it, through the
    scope of the built function, executeThreeJSCode returns the object the
    ambient environment binds the name to: two runs with the same THREE
    that differ only in that ambient binding return different objects. *)
Theorem ambient_globals_reach_the_fragment
    (ev : Scope -> jsstring -> Completion) (T : JSValue)
    (g1 g2 : gmap string JSValue) (v1 v2 : JSValue) :
  (forall sc w, resolve sc "sharedObject" = Some w ->
                ev sc (functionBody returnsGlobal) = Normal w) ->
  g1 !! "sharedObject"%string = Some v1 -> isObject3D v1 = true ->
  g2 !! "sharedObject"%string = Some v2 -> isObject3D v2 = true ->
  v1 <> v2 ->
  validateCode returnsGlobal = mkResult true None /\
  executeThreeJSCode ev T g1 returnsGlobal = mkRun (Returned v1) 1 /\
  executeThreeJSCode ev T g2 returnsGlobal = mkRun (Returned v2) 1 /\
  executeThreeJSCode ev T g1 returnsGlobal
  <> executeThreeJSCode ev T g2 returnsGlobal.
Proof.
  intros Hev Hg1 Ho1 Hg2 Ho2 Hne.
  split; [by vm_compute|].
  rewrite (ambient_binding_returned ev T g1 v1), (ambient_binding_returned ev T g2 v2)
    by done.
  repeat split. congruence.
Qed.

Lemma ambient_globals_witness :
  let ev := fun (sc : Scope) (_ : jsstring) =>
              match resolve sc "sharedObject" with
              | Some w => Normal w
              | None => Abrupt (WithMessage (lit "sharedObject is not defined"))
              end in
  let mesh := fun n => VObject (mkObject n true (Some (lit "Mesh")) false) in
  executeThreeJSCode ev VNull {["sharedObject"%string := mesh 1%nat]} returnsGlobal
  = mkRun (Returned (mesh 1%nat)) 1 /\
  executeThreeJSCode ev VNull {["sharedObject"%string := mesh 2%nat]} returnsGlobal
  = mkRun (Returned (mesh 2%nat)) 1.
Proof.
  intros ev mesh.
  destruct (ambient_globals_reach_the_fragment ev VNull
              {["sharedObject"%string := mesh 1%nat]}
              {["sharedObject"%string := mesh 2%nat]}
              (mesh 1%nat) (mesh 2%nat)) as (_ & H1 & H2 & _).
  - intros sc w Hw. unfold ev. by rewrite Hw.
  - apply lookup_singleton_eq.
  - reflexivity.
  - apply lookup_singleton_eq.
  - reflexivity.
  - discriminate.
  - by split.
Defined.

(** *** Case-insensitive rules *)

Lemma test_found' (re : RegExp) (pre s : jsstring) :
  is_Some (rmatch (ignoreCase re) (pattern re)
             (mkState (prevAfter None pre) s None) Some) ->
  test re (pre ++ s) = true.
Proof. intros [m H]. by apply (test_found re pre s m). Qed.

Lemma matched_is_security_rejected (p : RegExp) (code : jsstring) :
  p ∈ FORBIDDEN_PATTERNS -> test p code = true ->
  securityRejected (validateCode code).
Proof.
  intros Hp Ht.
  destruct (scanForbidden_first FORBIDDEN_PATTERNS code)
    as (l1 & q & l2 & E & _ & _ & Hs).
  { apply Exists_exists. by exists p. }
  unfold validateCode. rewrite Hs. split; [done|]. exists q. split; [|done].
  rewrite E. apply elem_of_app. right. by left.
Qed.

Lemma isWordChar_canonicalize (x : N) :
  isWordChar (canonicalize true x) = isWordChar x.
Proof.
  unfold canonicalize. simpl andb.
  destruct ((97 <=? x) && (x <=? 122)) eqn:E; [|done].
  unfold isWordChar. rewrite E. simpl.
  apply andb_prop in E as [H1%N.leb_le H2%N.leb_le].
  assert ((65 <=? x - 32) = true) as -> by (apply N.leb_le; lia).
  assert ((x - 32 <=? 90) = true) as -> by (apply N.leb_le; lia).
  by rewrite orb_true_r.
Qed.

(** A word that equals a word of the pattern up to case starts and ends
    with word characters. *)
Lemma same_case_word (w cs : jsstring) :
  sameIgnoringCase w cs -> Forall (fun c => isWordChar c = true) cs ->
  cs <> [] ->
  w <> [] /\ isWordOpt (head w) = true /\
  forall p, isWordOpt (prevAfter p w) = true.
Proof.
  unfold sameIgnoringCase. revert cs.
  induction w as [|x w IH]; intros [|c cs] Heq Hcs Hne; try done.
  simpl in Heq. injection Heq as Hx Hw.
  apply Forall_cons in Hcs as [Hc Hcs].
  assert (isWordChar x = true) as Hwx.
  { by rewrite <- isWordChar_canonicalize, Hx, isWordChar_canonicalize. }
  split; [done|]. split; [done|]. intros p. simpl.
  destruct w as [|y w]; [done|].
  destruct cs as [|c' cs]; [done|].
  by apply (IH (c' :: cs)).
Qed.

Lemma endsWord_prev (pre : jsstring) :
  endsWord pre = true -> isWordOpt (prevAfter None pre) = false.
Proof. unfold endsWord. by destruct (isWordOpt _). Qed.

Lemma startsWord_head (post : jsstring) :
  startsWord post = true -> isWordOpt (head post) = false.
Proof. unfold startsWord. by destruct (isWordOpt _). Qed.

(** The keyword of a function expression, a space and the parenthesis. *)
Lemma function_token_matches (pre post : jsstring) :
  endsWord pre = true ->
  test pFunction (pre ++ lit "function (" ++ post) = true.
Proof.
  intros Hpre%endsWord_prev. apply test_found'.
  change (pattern pFunction)
    with (RSeq RBoundary
            (seq (map RChar (lit "Function") ++ [RStar RWhite; RChar 40]))).
  change (ignoreCase pFunction) with true.
  change (lit "function (" ++ post)
    with (lit "function" ++ ([32] ++ 40 :: post)).
  change (rmatch true (RSeq RBoundary ?r) ?st Some)
    with (if atBoundary st then rmatch true r st Some else None).
  assert (atBoundary
            (mkState (prevAfter None pre)
               (lit "function" ++ [32] ++ 40 :: post) None) = true) as ->.
  { unfold atBoundary. cbn [prev rest]. by rewrite Hpre. }
  rewrite rmatch_chars, consume_ignoring_case by done.
  change (rmatch true (seq [RStar RWhite; RChar 40]) ?st Some)
    with (repeatMatcher (rmatch true RWhite) true (S (length (rest st))) st
            (fun st' => rmatch true (seq [RChar 40]) st' Some)).
  cbn [rest].
  apply (star_white_skip true [32] (40 :: post) _ _ None _
           (mkState (Some 40) post None)).
  - by repeat constructor.
  - simpl. lia.
  - done.
Qed.

(** The word prototype, in any case, standing alone. *)
Lemma prototype_word_matches (pre w post : jsstring) :
  sameIgnoringCase w (lit "prototype") ->
  endsWord pre = true -> startsWord post = true ->
  test pPrototype (pre ++ w ++ post) = true.
Proof.
  intros Hw Hpre%endsWord_prev Hpost%startsWord_head.
  destruct (same_case_word w (lit "prototype") Hw) as (Hne & Hhd & Hlast);
    [by repeat constructor|done|].
  apply test_found'.
  change (pattern pPrototype)
    with (RSeq RBoundary (seq (map RChar (lit "prototype") ++ [RBoundary]))).
  change (ignoreCase pPrototype) with true.
  change (rmatch true (RSeq RBoundary ?r) ?st Some)
    with (if atBoundary st then rmatch true r st Some else None).
  assert (atBoundary (mkState (prevAfter None pre) (w ++ post) None) = true)
    as ->.
  { unfold atBoundary. cbn [prev rest]. rewrite Hpre.
    destruct w as [|x w]; [done|]. exact Hhd. }
  rewrite rmatch_chars, consume_ignoring_case by done.
  change (rmatch true (seq [RBoundary]) ?st Some)
    with (if atBoundary st then Some st else None).
  unfold atBoundary. cbn [prev rest]. rewrite Hlast, Hpost. by eexists.
Qed.

(** C9. Every rule of the deny list ignores case. Hence the keyword of an
    anonymous function expression, followed by a space and a parenthesis,
    matches the rule written for the Function constructor, and the word
    prototype, in any case and wherever it stands, matches the rule on
    prototypes; either way validateCode gives a security rejection. Two
    fragments built from geometries, materials and grouping alone are
    rejected so. *)
Theorem case_insensitive_rules_reject_constructive_code :
  Forall (fun p => ignoreCase p = true) FORBIDDEN_PATTERNS /\
  (forall pre post,
     endsWord pre = true ->
     test pFunction (pre ++ lit "function (" ++ post) = true /\
     securityRejected (validateCode (pre ++ lit "function (" ++ post))) /\
  (forall pre w post,
     sameIgnoringCase w (lit "prototype") ->
     endsWord pre = true -> startsWord post = true ->
     test pPrototype (pre ++ w ++ post) = true /\
     securityRejected (validateCode (pre ++ w ++ post))) /\
  validateCode rowOfCubes = mkResult false (Some (securityMessage pFunction)) /\
  validateCode commentedChair
  = mkResult false (Some (securityMessage pPrototype)).
Proof.
  split; [by repeat constructor|]. split; [|split; [|split; by vm_compute]].
  - intros pre post Hpre.
    pose proof (function_token_matches pre post Hpre) as Ht.
    split; [done|]. apply (matched_is_security_rejected pFunction); [|done].
    by apply list_elem_of_In; vm_compute; tauto.
  - intros pre w post Hw Hpre Hpost.
    pose proof (prototype_word_matches pre w post Hw Hpre Hpost) as Ht.
    split; [done|]. apply (matched_is_security_rejected pPrototype); [|done].
    by apply list_elem_of_In; vm_compute; tauto.
Qed.

Lemma case_insensitive_rules_witness :
  (endsWord (lit "items.forEach(") = true /\
   test pFunction (lit "items.forEach(" ++ lit "function (" ++ lit "item) { })")
   = true) /\
  (sameIgnoringCase (lit "ProtoType") (lit "prototype") /\
   endsWord (lit "/* ") = true /\ startsWord (lit " */") = true /\
   securityRejected (validateCode (lit "/* " ++ lit "ProtoType" ++ lit " */"))).
Proof.
  destruct case_insensitive_rules_reject_constructive_code
    as (_ & Hf & Hp & _).
  assert (endsWord (lit "items.forEach(") = true) as H1 by (vm_compute; reflexivity).
  assert (sameIgnoringCase (lit "ProtoType") (lit "prototype")) as H2
    by (vm_compute; reflexivity).
  assert (endsWord (lit "/* ") = true) as H3 by (vm_compute; reflexivity).
  assert (startsWord (lit " */") = true) as H4 by (vm_compute; reflexivity).
  split.
  - split; [exact H1|]. exact (proj1 (Hf _ (lit "item) { })") H1)).
  - split; [exact H2|]. split; [exact H3|]. split; [exact H4|].
    exact (proj2 (Hp _ _ _ H2 H3 H4)).
Defined.

End SandboxFacts.

(** ** cleanCode: what it returns *)

Module CleanCodeResults.
Import JS Regex Sandbox Spec Fragments JSFacts CleanCodeFacts.

(** C6, as the code has it. cleanCode always returns. If the input has a
    fenced block, that is a triple-backtick marker, the hint javascript or
    js if it is there, one newline if it is there, then text up to the
    next marker, the result is the trimmed inner text of the first such
    block; any other word after the opening marker belongs to the inner
    text. With no fenced block the result is the trimmed input. *)
Theorem cleanCode_first_javascript_block (x : jsstring) :
  cleanCode x
  = Some (trim (match firstBlock jsHint x with
                | Some inner => inner
                | None => x
                end)).
Proof. apply cleanCode_extract. Qed.

(** C6, as stated, fails: for a block tagged python the hint stays in the
    result. *)
Lemma other_hint_is_kept :
  ~ (forall x, cleanCode x = Some (extract anyHint x)).
Proof.
  intros H. specialize (H pythonBlock). by vm_compute in H.
Qed.

(** C7. Wrapping a text without a marker in a javascript fence and
    cleaning it gives the trimmed text. *)
Theorem fence_round_trip (x : jsstring) :
  includes x (lit "```") = false ->
  cleanCode (wrapInFence x) = Some (trim x).
Proof.
  intros Hx. by rewrite cleanCode_extract, extract_wrapInFence.
Qed.

Lemma fence_round_trip_witness :
  includes redCube (lit "```") = false /\
  cleanCode (wrapInFence redCube) = Some (trim redCube).
Proof.
  assert (includes redCube (lit "```") = false) as H
    by (vm_compute; reflexivity).
  split; [exact H|]. exact (fence_round_trip redCube H).
Defined.

(** C10. cleanCode returns, and cleaning its result again returns the
    same text: the inner text of the first fenced block holds no marker,
    hence no block, and trimming twice is trimming once. *)
Theorem cleanCode_idempotent (x : jsstring) :
  (exists y, cleanCode x = Some y /\ cleanCode y = Some y) /\
  match firstBlock jsHint x with
  | Some inner =>
      includes inner (lit "```") = false /\ firstBlock jsHint inner = None
  | None => True
  end /\
  trim (trim x) = trim x.
Proof.
  split; [|split; [|apply trim_idem]].
  - exists (extract jsHint x). split; [apply cleanCode_extract|].
    by rewrite cleanCode_extract, extract_idem.
  - destruct (firstBlock jsHint x) as [inner|] eqn:E; [|done].
    apply firstBlock_no_fence in E. split; [done|].
    by apply no_fence_no_block.
Qed.

End CleanCodeResults.

(** ** The export scenes *)

Module SceneFacts.
Import Scene.

Lemma gltfVisit_keeps (acc : list Object3D) (child : Object3D) :
  gltfVisit acc child = acc ++ List.filter gltfKeeps [child].
Proof.
  unfold gltfVisit, gltfKeeps, shadowed, clone. simpl.
  destruct (isGridHelper child || isLight child || isShadowMaterial child);
    simpl; [by rewrite app_nil_r|].
  destruct (match material child with Some m => _ | None => _ end);
    simpl; [by rewrite app_nil_r|].
  destruct (isMesh child || isGroup child); simpl; [done|by rewrite app_nil_r].
Qed.

Lemma objVisit_keeps (acc : list Object3D) (child : Object3D) :
  objVisit acc child = acc ++ List.filter objKeeps [child].
Proof.
  unfold objVisit, objKeeps, shadowed, clone. simpl.
  destruct (isGridHelper child || isLight child);
    simpl; [by rewrite app_nil_r|].
  destruct (match material child with Some m => _ | None => _ end);
    simpl; [by rewrite app_nil_r|].
  destruct (isMesh child || isGroup child); simpl; [done|by rewrite app_nil_r].
Qed.

Lemma fold_visit (visit : list Object3D -> Object3D -> list Object3D)
    (keeps : Object3D -> bool) (children acc : list Object3D) :
  (forall a c, visit a c = a ++ List.filter keeps [c]) ->
  fold_left visit children acc = acc ++ List.filter keeps children.
Proof.
  intros Hv. revert acc. induction children as [|c cs IH]; intros acc.
  - simpl. by rewrite app_nil_r.
  - simpl fold_left. rewrite IH, Hv, <- app_assoc. f_equal.
    simpl. by destruct (keeps c).
Qed.

Lemma gltfExportScene_filter (children : list Object3D) :
  gltfExportScene children = List.filter gltfKeeps children.
Proof. apply (fold_visit gltfVisit gltfKeeps), gltfVisit_keeps. Qed.

Lemma objExportScene_filter (children : list Object3D) :
  objExportScene children = List.filter objKeeps children.
Proof. apply (fold_visit objVisit objKeeps), objVisit_keeps. Qed.

Lemma filter_Permutation_bool (f : Object3D -> bool) (l l' : list Object3D) :
  l ≡ₚ l' -> List.filter f l ≡ₚ List.filter f l'.
Proof.
  induction 1 as [|x l l' _ IH|x y l|l l' l'' _ IH1 _ IH2]; simpl.
  - done.
  - destruct (f x); [by constructor|done].
  - destruct (f x), (f y); try done. apply perm_swap.
  - by etrans.
Qed.

Lemma userNode_kept (u : Object3D) :
  userNode u -> gltfKeeps u = true /\ objKeeps u = true.
Proof. intros [t m Hm|t]; [by destruct m|done]. Qed.

Lemma infrastructure_dropped (marked : bool) :
  List.filter gltfKeeps (infrastructure marked) = [] /\
  List.filter objKeeps (infrastructure marked) = [].
Proof. by destruct marked. Qed.

Lemma kept_not_infrastructure (marked : bool) (u : Object3D) :
  gltfKeeps u = true -> u ∉ infrastructure marked.
Proof.
  intros Hk Hin%list_elem_of_In.
  assert (In u (List.filter gltfKeeps (infrastructure marked))) as H
    by (by apply filter_In).
  by rewrite (proj1 (infrastructure_dropped marked)) in H.
Qed.

Lemma unshadowed_kept (u : Object3D) :
  unshadowed u -> gltfKeeps u = true /\ objKeeps u = true.
Proof. intros [t m Hm|t]; [by destruct m|done]. Qed.

(** C8, as stated, fails: a user mesh with a ShadowMaterial is a mesh, and
    both exporters leave it out, as they do the ground. *)
Lemma shadow_material_mesh_is_left_out :
  let u1 := Mesh 6 ShadowMaterial in
  let u2 := Group 7 in
  let children := scene (addObject u2 (addObject u1 (init true))) in
  Spec.meshOrGroup u1 /\ Spec.meshOrGroup u2 /\
  children = infrastructure true ++ [u1; u2] /\
  gltfExportScene children = [u2] /\ objExportScene children = [u2] /\
  ~ gltfExportScene children ≡ₚ [u1; u2] /\
  ~ objExportScene children ≡ₚ [u1; u2].
Proof.
  intros u1 u2 children.
  assert (gltfExportScene children = [u2]) as HG by (by vm_compute).
  assert (objExportScene children = [u2]) as HO by (by vm_compute).
  split; [constructor|]. split; [constructor|]. split; [by vm_compute|].
  split; [done|]. split; [done|]. rewrite HG, HO.
  split; intros H%Permutation_length; discriminate H.
Qed.

(** C8, amended. In a scene whose children are the lights, the grid and
    the ground of the viewer and two user nodes, each a group or a mesh
    whose material is no ShadowMaterial, in any order, the export scene of
    exportGLTF and that of exportOBJ hold the two user nodes and nothing of
    the infrastructure. *)
Theorem exports_select_the_user_nodes (marked : bool) (u1 u2 : Object3D)
    (children : list Object3D) :
  unshadowed u1 -> unshadowed u2 ->
  children ≡ₚ infrastructure marked ++ [u1; u2] ->
  gltfExportScene children ≡ₚ [u1; u2] /\
  objExportScene children ≡ₚ [u1; u2] /\
  Forall (fun o => o ∉ infrastructure marked) (gltfExportScene children) /\
  Forall (fun o => o ∉ infrastructure marked) (objExportScene children).
Proof.
  intros [G1 O1]%unshadowed_kept [G2 O2]%unshadowed_kept Hperm.
  assert (gltfExportScene children ≡ₚ [u1; u2]) as HG.
  { rewrite gltfExportScene_filter.
    rewrite (filter_Permutation_bool _ _ _ Hperm), List.filter_app.
    rewrite (proj1 (infrastructure_dropped marked)). simpl.
    by rewrite G1, G2. }
  assert (objExportScene children ≡ₚ [u1; u2]) as HO.
  { rewrite objExportScene_filter.
    rewrite (filter_Permutation_bool _ _ _ Hperm), List.filter_app.
    rewrite (proj2 (infrastructure_dropped marked)). simpl.
    by rewrite O1, O2. }
  repeat split; try done.
  - rewrite HG. repeat constructor; by apply kept_not_infrastructure.
  - rewrite HO. repeat constructor; by apply kept_not_infrastructure.
Qed.

Lemma exports_select_witness :
  let u1 := Mesh 6 MeshStandardMaterial in
  let u2 := Group 7 in
  let children := scene (addObject u2 (addObject u1 (init false))) in
  (unshadowed u1 /\ unshadowed u2 /\
   children ≡ₚ infrastructure false ++ [u1; u2])
  /\ gltfExportScene children ≡ₚ [u1; u2]
  /\ objExportScene children ≡ₚ [u1; u2].
Proof.
  intros u1 u2 children.
  assert (unshadowed u1) as H1 by (by constructor).
  assert (unshadowed u2) as H2 by constructor.
  assert (children = infrastructure false ++ [u1; u2]) as E
    by (vm_compute; reflexivity).
  assert (children ≡ₚ infrastructure false ++ [u1; u2]) as H3
    by (rewrite E; reflexivity).
  split; [by repeat split|].
  destruct (exports_select_the_user_nodes false u1 u2 children H1 H2 H3)
    as (HG & HO & _).
  by split.
Defined.

End SceneFacts.

(** ** More on validateCode and executeThreeJSCode *)

Module SandboxMore.
Import JS Regex Derived Sandbox Spec Fragments JSFacts RegexFacts SandboxFacts.

Lemma scanForbidden_None_inv (ps : list RegExp) (code : jsstring) :
  scanForbidden ps code = None -> Forall (fun p => test p code = false) ps.
Proof.
  induction ps as [|p ps IH]; simpl; [by constructor|].
  destruct (test p code) eqn:E; [done|]. intros H. constructor; auto.
Qed.

(** X1. The result of validateCode is one of three: accepted, with no
    error, when no rule matches and the text [function createObject] is
    there; rejected with the message of a rule of the list that matches
    the code; or rejected with the structural message, when no rule
    matches and the text is absent. In particular [valid] holds exactly
    when [error] is null. *)
Theorem validateCode_cases (code : jsstring) :
  (validateCode code = mkResult true None /\
   Forall (fun p => test p code = false) FORBIDDEN_PATTERNS /\
   includes code (lit "function createObject") = true)
  \/ (exists p, p ∈ FORBIDDEN_PATTERNS /\ test p code = true /\
        validateCode code = mkResult false (Some (securityMessage p)))
  \/ (validateCode code = mkResult false (Some structuralMessage) /\
      Forall (fun p => test p code = false) FORBIDDEN_PATTERNS /\
      includes code (lit "function createObject") = false).
Proof.
  unfold validateCode.
  destruct (scanForbidden FORBIDDEN_PATTERNS code) as [r|] eqn:E.
  - right. left. apply scanForbidden_Some in E as (p & Hp & Ht & ->).
    by exists p.
  - apply scanForbidden_None_inv in E.
    destruct (includes code _) eqn:Ei; simpl; [by left|by right; right].
Qed.

Lemma returned_characterised (ev : Scope -> jsstring -> Completion)
    (T : JSValue) (g : gmap string JSValue) (code : jsstring) (v : JSValue) :
  outcome (executeThreeJSCode ev T g code) = Returned v <->
  valid (validateCode code) = true /\
  ev (sandboxScope T g) (functionBody code) = Normal v /\
  truthy v = true /\ isObject3D v = true /\
  evaluations (executeThreeJSCode ev T g code) = 1%nat.
Proof.
  unfold executeThreeJSCode, handler, checkResult. split.
  - intros H.
    destruct (valid (validateCode code)); simpl in *;
      [|by destruct (error _)].
    destruct (ev _ _) as [w|[m|[|] text|text|]]; simpl in *;
      [|by destruct (includes _ _)|done..].
    destruct (truthy w) eqn:Ht; simpl in *; [|done].
    destruct (isObject3D w) eqn:Ho; simpl in *;
      [|by destruct (includes _ _)].
    injection H as ->. by repeat split.
  - intros (Hv & He & Ht & Ho & _). by rewrite Hv, He, Ht, Ho.
Qed.

(** X2. executeThreeJSCode returns a value exactly when validateCode
    accepts the fragment and its evaluation returns a truthy value that is
    an instance of Object3D; the value returned is that one, and the
    fragment was evaluated once. *)
Theorem returned_iff_accepted_object3D (ev : Scope -> jsstring -> Completion)
    (T : JSValue) (g : gmap string JSValue) (code : jsstring) (v : JSValue) :
  outcome (executeThreeJSCode ev T g code) = Returned v <->
  valid (validateCode code) = true /\
  ev (sandboxScope T g) (functionBody code) = Normal v /\
  truthy v = true /\ isObject3D v = true /\
  evaluations (executeThreeJSCode ev T g code) = 1%nat.
Proof. apply returned_characterised. Qed.

Lemma returned_witness :
  let cube := VObject (mkObject 1 true (Some (lit "Mesh")) false) in
  outcome (executeThreeJSCode (fun _ _ => Normal cube) VNull ∅ redCube)
  = Returned cube.
Proof.
  intros cube.
  apply (returned_iff_accepted_object3D (fun _ _ => Normal cube) VNull ∅
           redCube cube).
  repeat split; vm_compute; reflexivity.
Defined.

Lemma security_message_marked (p : RegExp) :
  includes (securityMessage p) (lit "Security violation") = true.
Proof.
  unfold securityMessage.
  change (lit "Security violation: Forbidden pattern detected (")
    with (lit "Security violation"
          ++ lit ": Forbidden pattern detected (").
  rewrite <- app_assoc. apply includes_app_l.
  by rewrite <- (app_nil_r (lit "Security violation")).
Qed.

Lemma handler_message (m : jsstring) :
  exists m',
    handler (Abrupt (WithMessage m)) = Raised m' /\
    ((exists x, m' = lit "Code execution failed: " ++ x)
     \/ includes m' (lit "Security violation") = true).
Proof.
  cbn [handler]. destruct (includes m _) eqn:E; eexists; split; try done.
  - by right.
  - left. by eexists.
Qed.


(** X4. The message does not tell a rejection from a failure: when an
    accepted fragment throws an error that carries the message of a rule,
    executeThreeJSCode fails with that very message, as it would had
    validateCode rejected the fragment by that rule; only here the
    fragment has been evaluated. *)
Theorem thrown_security_message_passes (ev : Scope -> jsstring -> Completion)
    (T : JSValue) (g : gmap string JSValue) (code : jsstring) (p : RegExp) :
  valid (validateCode code) = true ->
  ev (sandboxScope T g) (functionBody code)
  = Abrupt (WithMessage (securityMessage p)) ->
  executeThreeJSCode ev T g code = mkRun (Raised (securityMessage p)) 1.
Proof.
  intros Hv He. rewrite accepted_is_evaluated, He by done.
  unfold checkResult, handler. by rewrite security_message_marked.
Qed.

Lemma thrown_security_message_witness :
  valid (validateCode redCube) = true /\
  executeThreeJSCode
    (fun _ _ => Abrupt (WithMessage (securityMessage pFetch))) VNull ∅ redCube
  = mkRun (Raised (securityMessage pFetch)) 1.
Proof.
  assert (valid (validateCode redCube) = true) as H by (vm_compute; reflexivity).
  split; [exact H|].
  exact (thrown_security_message_passes
           (fun _ _ => Abrupt (WithMessage (securityMessage pFetch)))
           VNull ∅ redCube pFetch H eq_refl).
Defined.

End SandboxMore.

(** ** The server's extraction, and the client's after it *)

Module ServerFacts.
Import JS Regex Derived Sandbox Spec Server Fragments.
Import JSFacts RegexFacts CleanCodeFacts.

Lemma firstJavascriptBlock_eq (s : jsstring) :
  firstJavascriptBlock s =
  match javascriptBlockAt s with
  | Some inner => Some inner
  | None =>
      match s with
      | [] => None
      | _ :: t => firstJavascriptBlock t
      end
  end.
Proof. by destruct s. Qed.

Lemma javascriptBlock_at (p : option N) (s : jsstring) :
  option_map cap1
    (rmatch (ignoreCase javascriptBlock) (pattern javascriptBlock)
            (mkState p s None) Some)
  = option_map Some (javascriptBlockAt s).
Proof.
  change (pattern javascriptBlock)
    with (seq (map RChar opening ++ ([RGroup (RLazyStar RAny)] ++ fence))).
  change (ignoreCase javascriptBlock) with false.
  rewrite rmatch_chars, consume_exact. unfold javascriptBlockAt.
  destruct (startsWith s opening); [|done]. apply group_lazy_fence.
Qed.

Lemma exec_javascriptBlock (p : option N) (s : jsstring) :
  option_map cap1 (execFrom javascriptBlock p s)
  = option_map Some (firstJavascriptBlock s).
Proof.
  revert p. induction s as [|x t IH]; intros p;
    rewrite execFrom_eq, firstJavascriptBlock_eq;
    pose proof (javascriptBlock_at p) as H;
    [specialize (H []) | specialize (H (x :: t))];
    destruct (rmatch _ _ _ _) as [m|]; destruct (javascriptBlockAt _);
    simpl in H; first [done | apply IH].
Qed.

Lemma firstJavascriptBlock_no_fence (s i : jsstring) :
  firstJavascriptBlock s = Some i -> includes i (lit "```") = false.
Proof.
  induction s as [|x s IH]; rewrite firstJavascriptBlock_eq;
    unfold javascriptBlockAt.
  - done.
  - destruct (startsWith (x :: s) opening); [|exact IH].
    destruct (beforeFence _) as [c|] eqn:E; [|exact IH].
    intros [= <-]. by apply beforeFence_no_fence in E.
Qed.

Lemma extractCode_scan (aiResponse : jsstring) :
  extractCode aiResponse
  = Some (match firstJavascriptBlock aiResponse with
          | Some inner => trim inner
          | None => aiResponse
          end).
Proof.
  unfold extractCode, exec.
  pose proof (exec_javascriptBlock None aiResponse) as H.
  destruct (execFrom javascriptBlock None aiResponse) as [m|];
    destruct (firstJavascriptBlock aiResponse); simpl in H; try done.
  injection H as ->. done.
Qed.

(** X5. The server's extraction never fails. Its result is the trimmed
    text between the first opening line, that is three backticks, the
    word javascript and a newline, and the next three backticks; when the
    answer has no such block the result is the answer itself, as it is
    and not trimmed. *)
Theorem extractCode_first_javascript_block (aiResponse : jsstring) :
  extractCode aiResponse
  = Some (match firstJavascriptBlock aiResponse with
          | Some inner => trim inner
          | None => aiResponse
          end).
Proof. apply extractCode_scan. Qed.

Lemma trimmed_inner_is_clean (i : jsstring) :
  includes i (lit "```") = false -> cleanCode (trim i) = Some (trim i).
Proof.
  intros Hi. rewrite cleanCode_extract. unfold extract.
  rewrite no_fence_no_block; [by rewrite trim_idem|].
  destruct (trim_infix i) as (l & r & E).
  apply (includes_infix l _ r). by rewrite <- E.
Qed.

(** X6. Where the server has found a javascript block, the client's
    cleanCode returns the server's code unchanged. *)
Theorem cleanCode_keeps_server_code (aiResponse code : jsstring) :
  firstJavascriptBlock aiResponse <> None ->
  extractCode aiResponse = Some code ->
  cleanCode code = Some code.
Proof.
  rewrite extractCode_scan.
  destruct (firstJavascriptBlock aiResponse) as [inner|] eqn:H; [|done].
  intros _ [= <-]. apply trimmed_inner_is_clean.
  by apply firstJavascriptBlock_no_fence in H.
Qed.

Lemma javascriptBlockAt_wrapInFence (x : jsstring) :
  javascriptBlockAt (wrapInFence x)
  = beforeFence (x ++ newline :: lit "```" ++ []).
Proof.
  change (wrapInFence x) with (opening ++ (x ++ newline :: lit "```" ++ [])).
  unfold javascriptBlockAt. by rewrite startsWith_app, drop_app_length.
Qed.

Lemma cleanCode_keeps_server_code_witness :
  firstJavascriptBlock (wrapInFence redCube) <> None /\
  extractCode (wrapInFence redCube) = Some redCube /\
  cleanCode redCube = Some redCube.
Proof.
  assert (firstJavascriptBlock (wrapInFence redCube) <> None) as H
    by (vm_compute; discriminate).
  assert (extractCode (wrapInFence redCube) = Some redCube) as H'
    by (vm_compute; reflexivity).
  split; [exact H|]. split; [exact H'|].
  exact (cleanCode_keeps_server_code _ _ H H').
Defined.

Lemma extract_through_server (x : jsstring) :
  includes x (lit "```") = false ->
  extractCode (wrapInFence x) = Some (trim x) /\
  cleanCode (trim x) = Some (trim x).
Proof.
  intros Hx. split; [|by apply trimmed_inner_is_clean].
  rewrite extractCode_scan, firstJavascriptBlock_eq.
  rewrite javascriptBlockAt_wrapInFence, (beforeFence_sep _ _ Hx).
  by rewrite trim_snoc_ws.
Qed.

(** X7. A text without three backticks in a row, sent as the model's
    answer inside a javascript fence, comes out of the server's
    extraction trimmed, and out of the client's cleanCode the same. *)
Theorem fence_round_trip_through_server (x : jsstring) :
  includes x (lit "```") = false ->
  extractCode (wrapInFence x) = Some (trim x) /\
  cleanCode (trim x) = Some (trim x).
Proof. apply extract_through_server. Qed.

Lemma fence_round_trip_through_server_witness :
  includes redCube (lit "```") = false /\
  extractCode (wrapInFence redCube) = Some (trim redCube) /\
  cleanCode (trim redCube) = Some (trim redCube).
Proof.
  assert (includes redCube (lit "```") = false) as H
    by (vm_compute; reflexivity).
  split; [exact H|]. exact (fence_round_trip_through_server redCube H).
Defined.

Lemma startsWith_prefix (s p q : jsstring) :
  startsWith s (p ++ q) = true -> startsWith s p = true.
Proof.
  revert s. induction p as [|y p IH]; intros s; [by rewrite startsWith_nil|].
  destruct s as [|x s]; simpl; [done|].
  intros [-> Hs]%andb_prop. simpl. by apply IH.
Qed.

Lemma no_opening_no_block (s : jsstring) :
  includes s opening = false -> firstJavascriptBlock s = None.
Proof.
  induction s as [|x s IH]; intros Hs; rewrite firstJavascriptBlock_eq;
    unfold javascriptBlockAt.
  - done.
  - rewrite includes_cons in Hs. apply orb_false_elim in Hs as [-> Hs].
    by apply IH.
Qed.

(** No opening line of the server starts in a text without a marker, nor
    in the closing line after it. *)
Lemma no_opening_in_tail (x : jsstring) :
  includes x (lit "```") = false ->
  includes (x ++ newline :: lit "```") opening = false.
Proof.
  induction x as [|c x IH]; intros Hx; [by vm_compute|].
  rewrite includes_cons in Hx. apply orb_false_elim in Hx as [Hc Hx].
  rewrite <- app_comm_cons, includes_cons, (IH Hx), orb_false_r.
  destruct (startsWith _ opening) eqn:E; [|done].
  change opening with (lit "```" ++ lit "javascript" ++ [newline]) in E.
  apply startsWith_prefix in E. rewrite app_comm_cons in E.
  apply startsWith_sep in E; [congruence|by repeat constructor].
Qed.

(** X19. A text without three backticks in a row, in a fence with the
    hint js, passes the server as it is, fence and all: the server looks
    for the hint javascript only. The client's cleanCode then takes the
    text out and trims it. *)
Theorem js_fence_is_left_to_the_client (x : jsstring) :
  includes x (lit "```") = false ->
  extractCode (wrapInJsFence x) = Some (wrapInJsFence x) /\
  cleanCode (wrapInJsFence x) = Some (trim x).
Proof.
  intros Hx. split.
  - rewrite extractCode_scan, no_opening_no_block; [done|].
    change (wrapInJsFence x)
      with (96 :: 96 :: 96 :: 106 :: 115 :: 10 :: (x ++ newline :: lit "```")).
    rewrite !includes_cons, (no_opening_in_tail x Hx).
    by vm_compute.
  - rewrite cleanCode_extract. unfold extract.
    rewrite firstBlock_eq.
    change (wrapInJsFence x)
      with (lit "```" ++ lit "js" ++ [newline]
            ++ (x ++ newline :: lit "```" ++ [])).
    unfold blockAt, jsHint, dropPrefix.
    rewrite (startsWith_app _ []), (drop_app_length' (lit "```")) by done.
    assert (startsWith (lit "js" ++ [newline]
                        ++ x ++ newline :: lit "```" ++ [])
                       (lit "javascript") = false) as -> by (by vm_compute).
    rewrite (startsWith_app _ []), (drop_app_length' (lit "js")) by done.
    rewrite (startsWith_app _ []), drop_app_length, (beforeFence_sep _ _ Hx).
    by rewrite trim_snoc_ws.
Qed.

Lemma js_fence_witness :
  includes redCube (lit "```") = false /\
  extractCode (wrapInJsFence redCube) = Some (wrapInJsFence redCube) /\
  cleanCode (wrapInJsFence redCube) = Some (trim redCube).
Proof.
  assert (includes redCube (lit "```") = false) as H
    by (vm_compute; reflexivity).
  split; [exact H|]. exact (js_fence_is_left_to_the_client redCube H).
Defined.

(** Each syntax tree prints back to the text of the literal. *)
Lemma server_source_transcribed :
  unparse (pattern javascriptBlock) = source javascriptBlock.
Proof. reflexivity. Qed.

End ServerFacts.

(** ** truncateCode *)

Module ChatFacts.
Import JS Chat.

Lemma split_nonempty (sep : N) (s : jsstring) : split sep s <> [].
Proof.
  induction s as [|c s IH]; simpl; [done|].
  destruct (c =? sep); [done|]. by destruct (split sep s).
Qed.

Lemma split_cons_other (sep c : N) (s : jsstring) :
  (c =? sep) = false ->
  exists l ls, split sep s = l :: ls /\ split sep (c :: s) = (c :: l) :: ls.
Proof.
  intros Hc. simpl. rewrite Hc.
  destruct (split sep s) as [|l ls] eqn:E; [by apply split_nonempty in E|].
  by exists l, ls.
Qed.

(** No line holds the separator. *)
Lemma split_lines_free (sep : N) (s : jsstring) :
  Forall (fun l => Forall (fun c => (c =? sep) = false) l) (split sep s).
Proof.
  induction s as [|c s IH]; simpl; [by repeat constructor|].
  destruct (c =? sep) eqn:Hc; [by constructor|].
  destruct (split sep s) as [|l ls]; [by repeat constructor|].
  apply Forall_cons in IH as [Hl Hls]. constructor; [by constructor|done].
Qed.

Lemma join_cons (sep l : jsstring) (ls : list jsstring) :
  ls <> [] -> join sep (l :: ls) = l ++ sep ++ join sep ls.
Proof. by destruct ls. Qed.

(** Joining the lines gives the text back. *)
Lemma join_split (sep : N) (s : jsstring) : join [sep] (split sep s) = s.
Proof.
  induction s as [|c s IH]; simpl split; [done|].
  destruct (c =? sep) eqn:Hc.
  - apply N.eqb_eq in Hc as ->.
    rewrite join_cons by apply split_nonempty. by rewrite IH.
  - destruct (split sep s) as [|l ls] eqn:E; [by apply split_nonempty in E|].
    destruct ls as [|l' ls]; simpl in *; by rewrite <- IH.
Qed.

Lemma split_app (sep : N) (a b : jsstring) :
  split sep (a ++ sep :: b) = split sep a ++ split sep b.
Proof.
  induction a as [|c a IH]; simpl.
  - by rewrite N.eqb_refl.
  - destruct (c =? sep); [by rewrite IH|]. rewrite IH.
    destruct (split sep a) as [|l ls] eqn:E; [by apply split_nonempty in E|].
    done.
Qed.

Lemma split_free (sep : N) (l : jsstring) :
  Forall (fun c => (c =? sep) = false) l -> split sep l = [l].
Proof.
  induction 1 as [|c l Hc _ IH]; simpl; [done|]. by rewrite Hc, IH.
Qed.

(** Splitting joined lines gives the lines back. *)
Lemma split_join (sep : N) (ls : list jsstring) :
  ls <> [] ->
  Forall (fun l => Forall (fun c => (c =? sep) = false) l) ls ->
  split sep (join [sep] ls) = ls.
Proof.
  intros Hne H. induction H as [|l ls Hl Hls IH]; [done|].
  destruct ls as [|l' ls].
  - by apply split_free.
  - rewrite join_cons by done.
    change ([sep] ++ join [sep] (l' :: ls))
      with (sep :: join [sep] (l' :: ls)).
    rewrite split_app, (split_free sep l Hl).
    by rewrite IH.
Qed.

Lemma truncatedMark_lines :
  split newline (lit "// ... (truncated)") = [lit "// ... (truncated)"].
Proof. by vm_compute. Qed.

(** The lines of a truncated text: the lines kept, then the mark. *)
Lemma split_truncated (lines : list jsstring) (n : nat) :
  Forall (fun l => Forall (fun c => (c =? newline) = false) l) lines ->
  (n < length lines)%nat ->
  split newline (join [newline] (take n lines) ++ truncatedMark)
  = (if n is O then [[]] else take n lines) ++ [lit "// ... (truncated)"].
Proof.
  intros Hfree Hn. unfold truncatedMark.
  rewrite split_app, truncatedMark_lines. f_equal.
  destruct n as [|n]; [by rewrite take_0|].
  apply split_join.
  - destruct lines; simpl in *; [lia|done].
  - by apply Forall_take.
Qed.

(** X8. truncateCode leaves a text of at most maxLines lines as it is.
    A longer one becomes its first maxLines lines, joined as they were,
    and the mark on a line of its own: the result is then a prefix of the
    text followed by the mark, and has maxLines + 1 lines. *)
Theorem truncateCode_keeps_a_prefix (code : jsstring) (maxLines : nat) :
  (1 <= maxLines)%nat ->
  let lines := split newline code in
  ((length lines <= maxLines)%nat -> truncateCode code maxLines = code) /\
  ((maxLines < length lines)%nat ->
     exists kept rest,
       code = kept ++ newline :: rest /\
       kept = join [newline] (take maxLines lines) /\
       truncateCode code maxLines = kept ++ truncatedMark /\
       length (split newline (truncateCode code maxLines)) = S maxLines).
Proof.
  intros Hpos lines. unfold truncateCode. fold lines. split.
  - intros Hle. by apply Nat.ltb_ge in Hle as ->.
  - intros Hlt. pose proof Hlt as ->%Nat.ltb_lt.
    exists (join [newline] (take maxLines lines)),
           (join [newline] (drop maxLines lines)).
    split; [|split; [done|split; [done|]]].
    + rewrite <- (join_split newline code) at 1. fold lines.
      rewrite <- (take_drop maxLines lines) at 1.
      assert (take maxLines lines <> []) as Ht.
      { intros Ht%(f_equal length). rewrite length_take in Ht.
        simpl in Ht. lia. }
      assert (drop maxLines lines <> []) as Hd.
      { intros Hd%(f_equal length). rewrite length_drop in Hd.
        simpl in Hd. lia. }
      revert Ht. generalize (take maxLines lines) as t.
      induction t as [|l t IH]; [done|]. intros _.
      destruct t as [|l' t].
      * simpl app. by rewrite join_cons by done.
      * change ((l :: l' :: t) ++ drop maxLines lines)
          with (l :: ((l' :: t) ++ drop maxLines lines)).
        rewrite !join_cons by done. rewrite IH by done.
        by rewrite <- !app_assoc.
    + subst lines.
      rewrite split_truncated by (apply split_lines_free || done).
      destruct maxLines as [|n]; [lia|].
      rewrite length_app, length_take.
      change (length [lit "// ... (truncated)"]) with 1%nat.
      unfold jsstring in *. lia.
Qed.

Lemma truncateCode_witness :
  (1 <= defaultMaxLines)%nat /\
  truncateCode (lit "function createObject() {}") defaultMaxLines
  = lit "function createObject() {}".
Proof.
  assert (1 <= defaultMaxLines)%nat as H by (unfold defaultMaxLines; lia).
  split; [exact H|].
  apply (truncateCode_keeps_a_prefix (lit "function createObject() {}")
           defaultMaxLines H).
  vm_compute. lia.
Defined.

(** X9. Truncating twice is truncating once, whatever the bound. *)
Theorem truncateCode_idempotent (code : jsstring) (maxLines : nat) :
  truncateCode (truncateCode code maxLines) maxLines
  = truncateCode code maxLines.
Proof.
  unfold truncateCode at 2 3.
  destruct (maxLines <? length (split newline code))%nat eqn:E.
  - apply Nat.ltb_lt in E. unfold truncateCode.
    rewrite split_truncated by (apply split_lines_free || done).
    destruct maxLines as [|n]; [by rewrite !take_0|]. cbv beta iota.
    assert (length (take (S n) (split newline code)) = S n) as Hlen.
    { rewrite length_take. unfold jsstring in *. lia. }
    match goal with
    | |- context [(?a <? ?b)%nat] => destruct (Nat.ltb_spec a b) as [_|Hge]
    end; unfold jsstring in *;
      [|rewrite length_app, Hlen in Hge; simpl in Hge; lia].
    by rewrite take_app_length'.
  - unfold truncateCode. by rewrite E.
Qed.

End ChatFacts.

(** ** The viewer's scene over its life *)

Module ViewerFacts.
Import Scene Viewer SceneFacts.

Lemma remove_absent (o : Object3D) (l : list Object3D) :
  o ∉ l -> remove o l = l.
Proof.
  induction l as [|c l IH]; simpl; [done|].
  intros [Hc Hl]%not_elem_of_cons. destruct (decide (c = o)); [done|].
  by rewrite IH.
Qed.

Lemma remove_middle (o : Object3D) (a b : list Object3D) :
  o ∉ a -> remove o (a ++ o :: b) = a ++ b.
Proof.
  induction a as [|c a IH]; simpl.
  - intros _. by destruct (decide (o = o)).
  - intros [Hc Ha]%not_elem_of_cons. destruct (decide (c = o)); [done|].
    by rewrite IH.
Qed.

Lemma add_new (o : Object3D) (l : list Object3D) :
  o ∉ l -> o <> theScene -> add o l = l ++ [o].
Proof.
  intros Hl Hs. unfold add. destruct (decide (o = theScene)); [done|].
  by rewrite remove_absent.
Qed.

Lemma childrenAmong_app (a b : list Object3D) :
  childrenAmong (a ++ b) = childrenAmong a ++ childrenAmong b.
Proof. apply List.filter_app. Qed.

Lemma theScene_not_among (us : list Object3D) : theScene ∉ childrenAmong us.
Proof.
  unfold childrenAmong. intros H%list_elem_of_In%filter_In.
  destruct H as [_ H]. by rewrite bool_decide_eq_true_2 in H.
Qed.

Lemma childrenAmong_cons (o : Object3D) (us : list Object3D) :
  childrenAmong (o :: us)
  = if decide (o = theScene) then childrenAmong us else o :: childrenAmong us.
Proof.
  unfold childrenAmong. cbn [List.filter].
  destruct (decide (o = theScene)) as [E|E].
  - by rewrite (bool_decide_eq_true_2 _ E).
  - by rewrite (bool_decide_eq_false_2 _ E).
Qed.

Lemma remove_all (a us : list Object3D) :
  NoDup (a ++ childrenAmong us) -> theScene ∉ a ->
  fold_left (fun children obj => remove obj children) us
            (a ++ childrenAmong us) = a.
Proof.
  revert a. induction us as [|o us IH]; intros a Hnd Hs.
  - simpl. by rewrite app_nil_r.
  - cbn [fold_left]. rewrite childrenAmong_cons in Hnd |- *.
    destruct (decide (o = theScene)) as [->|Ho].
    + rewrite remove_absent; [by apply IH|].
      intros [H|H]%elem_of_app; [done|]. by apply theScene_not_among in H.
    + apply NoDup_app in Hnd as (Ha & Hdis & Hus).
      apply NoDup_cons in Hus as [Hou Hus].
      rewrite remove_middle.
      * apply IH; [|done]. apply NoDup_app. repeat split; try done.
        intros x Hx Hx'. apply (Hdis x Hx). by right.
      * intros Hin. apply (Hdis o Hin). by left.
Qed.

Lemma infrastructure_NoDup (marked : bool) : NoDup (infrastructure marked).
Proof. destruct marked; apply (bool_decide_unpack _); by vm_compute. Qed.

Lemma infrastructure_without_scene (marked : bool) :
  theScene ∉ infrastructure marked.
Proof. destruct marked; apply (bool_decide_unpack _); by vm_compute. Qed.

(** The scene is the infrastructure followed by the user objects, each
    child once; the scene itself, when it was handed to addObject, is a
    user object and no child. *)
Lemma reachable_shape (marked : bool) (v : SceneViewer) :
  reachable marked v ->
  scene v = infrastructure marked ++ childrenAmong (userObjects v) /\
  NoDup (scene v).
Proof.
  induction 1 as [|v o _ [IH Hnd] Ho|v _ [IH Hnd]];
    cbn [scene userObjects init addObject clearUserObjects].
  - rewrite app_nil_r. split; [done|apply infrastructure_NoDup].
  - rewrite childrenAmong_app, childrenAmong_cons. unfold add.
    destruct (decide (o = theScene)) as [->|Hs].
    + cbn [childrenAmong List.filter]. by rewrite app_nil_r.
    + rewrite remove_absent by done. cbn [childrenAmong List.filter].
      rewrite IH, <- app_assoc. split; [done|]. rewrite app_assoc, <- IH.
      apply NoDup_app. repeat split; try done.
      * intros x Hx [->|[]%elem_of_nil]%elem_of_cons. done.
      * apply NoDup_singleton.
  - rewrite IH in Hnd |- *.
    rewrite remove_all by (done || apply infrastructure_without_scene).
    cbn [childrenAmong List.filter]. rewrite app_nil_r.
    split; [done|apply infrastructure_NoDup].
Qed.

(** X10. Whatever was added before, clearUserObjects brings the viewer
    back to the scene it started with, lights, grid and ground in their
    order, and to no user objects. *)
Theorem clear_restores_initial_scene (marked : bool) (v : SceneViewer) :
  reachable marked v -> clearUserObjects v = init marked.
Proof.
  intros [Hs Hnd]%reachable_shape. unfold clearUserObjects, init.
  rewrite Hs in Hnd |- *.
  by rewrite remove_all by (done || apply infrastructure_without_scene).
Qed.

Lemma clear_restores_witness :
  let v := addObject (Group 7) (addObject (Mesh 6 MeshPhongMaterial) (init false)) in
  reachable false v /\ clearUserObjects v = init false.
Proof.
  intros v.
  assert (reachable false v) as H.
  { unfold v. apply reach_add; [apply reach_add; [apply reach_init|]|];
      apply (bool_decide_unpack _); vm_compute; exact I. }
  split; [exact H|]. exact (clear_restores_initial_scene false v H).
Defined.

Lemma filter_childrenAmong (keeps : Object3D -> bool) (us : list Object3D) :
  keeps theScene = false ->
  List.filter keeps (childrenAmong us) = List.filter keeps us.
Proof.
  intros Hk. induction us as [|o us IH]; [done|].
  rewrite childrenAmong_cons. destruct (decide (o = theScene)) as [->|Ho];
    cbn [List.filter]; [by rewrite Hk|by rewrite IH].
Qed.



Lemma gltfKeeps_objKeeps (c : Object3D) :
  gltfKeeps c = objKeeps c && negb (isShadowMaterial c).
Proof.
  unfold gltfKeeps, objKeeps.
  by destruct (isGridHelper c), (isLight c), (isShadowMaterial c),
    (shadowed c), (isMesh c), (isGroup c).
Qed.

(** X12. The two exporters differ in one test only: the export scene of
    exportGLTF is that of exportOBJ without the children that carry
    [isShadowMaterial] themselves; on a scene with no such child the two
    are equal. *)
Theorem gltf_selection_within_obj (children : list Object3D) :
  gltfExportScene children
  = List.filter (fun c => negb (isShadowMaterial c)) (objExportScene children)
  /\ (Forall (fun c => isShadowMaterial c = false) children ->
      gltfExportScene children = objExportScene children).
Proof.
  rewrite gltfExportScene_filter, objExportScene_filter. split.
  - induction children as [|c cs IH]; cbn [List.filter]; [done|].
    rewrite IH, (gltfKeeps_objKeeps c).
    destruct (objKeeps c); cbn [andb List.filter]; [|done].
    by destruct (isShadowMaterial c).
  - induction 1 as [|c cs Hc _ IH]; cbn [List.filter]; [done|].
    by rewrite IH, (gltfKeeps_objKeeps c), Hc, andb_true_r.
Qed.

Lemma gltf_selection_witness :
  Forall (fun c => isShadowMaterial c = false) (infrastructure false) /\
  gltfExportScene (infrastructure false) = objExportScene (infrastructure false).
Proof.
  assert (Forall (fun c => isShadowMaterial c = false) (infrastructure false))
    as H by (repeat constructor).
  split; [exact H|].
  exact (proj2 (gltf_selection_within_obj (infrastructure false)) H).
Defined.

Lemma elem_of_remove (o x : Object3D) (l : list Object3D) :
  NoDup l -> x ∈ remove o l <-> x ∈ l /\ x <> o.
Proof.
  induction l as [|c l IH]; cbn [remove].
  - intros _. split; [by intros ?%elem_of_nil|by intros [?%elem_of_nil _]].
  - intros [Hc Hl]%NoDup_cons. destruct (decide (c = o)) as [->|Hco].
    + rewrite elem_of_cons. split.
      * intros Hx. split; [by right|]. by intros ->.
      * by intros [[->|Hx] Hne].
    + rewrite !elem_of_cons, (IH Hl). split.
      * intros [->|[Hx Hne]]; [by split; [left|]|by split; [right|]].
      * intros [[->|Hx] Hne]; [by left|by right].
Qed.

Lemma NoDup_remove (o : Object3D) (l : list Object3D) :
  NoDup l -> NoDup (remove o l).
Proof.
  induction l as [|c l IH]; cbn [remove]; [done|].
  intros [Hc Hl]%NoDup_cons. destruct (decide (c = o)); [done|].
  apply NoDup_cons. split; [|by apply IH].
  rewrite elem_of_remove by done. by intros [? _].
Qed.

Lemma tidy_init (marked : bool) : tidy marked (init marked).
Proof.
  repeat split; cbn [scene userObjects init].
  - apply infrastructure_NoDup.
  - apply infrastructure_without_scene.
  - by left.
  - by intros o ?%elem_of_nil.
Qed.

Lemma tidy_addObject (marked : bool) (object : Object3D) (v : SceneViewer) :
  tidy marked v -> tidy marked (addObject object v).
Proof.
  intros (Hnd & Hs & Hin & Hus).
  unfold tidy, addObject, add. cbn [scene userObjects].
  destruct (decide (object = theScene)) as [->|Ho].
  - repeat split; try done.
    + intros o [H|H]%Hin; [by left|right]. apply elem_of_app. by left.
    + intros o [H|[->|[]%elem_of_nil]%elem_of_cons]%elem_of_app Hne;
        [by apply Hus|done].
  - repeat split.
    + apply NoDup_app. repeat split.
      * by apply NoDup_remove.
      * intros x [_ Hx]%elem_of_remove [->|[]%elem_of_nil]%elem_of_cons;
          done.
      * apply NoDup_singleton.
    + intros [[H _]%elem_of_remove|[E|[]%elem_of_nil]%elem_of_cons]%elem_of_app;
        done.
    + intros o [[H _]%elem_of_remove|H]%elem_of_app; try done.
      * destruct (Hin o H) as [?|?]; [by left|right].
        apply elem_of_app. by left.
      * right. apply elem_of_app. by right.
    + intros o Hin' Hne. apply elem_of_app.
      destruct (decide (o = object)) as [->|Hd].
      * right. by left.
      * left. apply elem_of_remove; [done|]. split; [|done].
        apply elem_of_app in Hin' as [H|[->|[]%elem_of_nil]%elem_of_cons];
          [by apply Hus|done].
Qed.

Lemma elem_of_remove_all (x : Object3D) (us l : list Object3D) :
  NoDup l ->
  NoDup (fold_left (fun children obj => remove obj children) us l) /\
  (x ∈ fold_left (fun children obj => remove obj children) us l
   <-> x ∈ l /\ x ∉ us).
Proof.
  revert l. induction us as [|o us IH]; intros l Hnd; cbn [fold_left].
  - split; [done|]. split; [intros H; split; [done|by intros ?%elem_of_nil]|by intros [? _]].
  - destruct (IH (remove o l) (NoDup_remove o l Hnd)) as [H1 H2].
    split; [done|]. rewrite H2, elem_of_remove by done.
    rewrite not_elem_of_cons. clear. tauto.
Qed.

Lemma tidy_clearUserObjects (marked : bool) (v : SceneViewer) :
  tidy marked v -> tidy marked (clearUserObjects v).
Proof.
  intros (Hnd & Hs & Hin & Hus).
  unfold tidy, clearUserObjects. cbn [scene userObjects].
  repeat split.
  - by apply (elem_of_remove_all theScene).
  - intros [H _]%elem_of_remove_all; done.
  - intros o [H Hn]%elem_of_remove_all; [|done].
    destruct (Hin o H); [by left|done].
  - by intros o ?%elem_of_nil.
Qed.

(** What an exporter selects from the scene of a tidy viewer: the user
    objects that its test keeps, each once. *)
Lemma tidy_selection (marked : bool) (v : SceneViewer)
    (keeps : Object3D -> bool) :
  tidy marked v ->
  List.filter keeps (infrastructure marked) = [] -> keeps theScene = false ->
  NoDup (List.filter keeps (scene v)) /\
  forall o, o ∈ List.filter keeps (scene v)
            <-> o ∈ userObjects v /\ keeps o = true.
Proof.
  intros (Hnd & Hs & Hin & Hus) Hi Hk. split.
  - apply NoDup_ListNoDup, List.NoDup_filter. by apply NoDup_ListNoDup.
  - intros o. rewrite list_elem_of_In, filter_In, <- list_elem_of_In. split.
    + intros [Ho Hko]. split; [|done]. destruct (Hin o Ho) as [H|H]; [|done].
      assert (In o (List.filter keeps (infrastructure marked))) as Hf
        by (apply filter_In; by rewrite <- list_elem_of_In).
      by rewrite Hi in Hf.
    + intros [Ho Hko]. split; [|done]. apply Hus; [done|].
      intros ->. by rewrite Hk in Hko.
Qed.

End ViewerFacts.

(** ** The server's answers and the application *)

Module AppFacts.
Import JS Sandbox Spec Scene Viewer Server Generate App Fragments.
Import JSFacts CleanCodeFacts SandboxFacts SandboxMore ServerFacts.
Import SceneFacts ViewerFacts.

Lemma text_or_empty (l : jsstring) :
  match l with c :: s => c :: s | [] => [] end = l.
Proof. by destruct l. Qed.

Lemma extractCode_returns (aiResponse : jsstring) :
  exists code, extractCode aiResponse = Some code.
Proof. rewrite extractCode_scan. by eexists. Qed.

(** X13. The handler answers with an ok status exactly when it answers
    with a code, and then it has called the model once and the status is
    200; it calls the model only for a truthy message and a configured
    key. The client's generateCode, given the handler's answer, throws the
    handler's error text or returns [success] with the code: it never
    returns an answer without [success]. *)
Theorem generate_answers (fetchUpstream : jsstring -> JSValue -> Upstream)
    (message : JSValue) (apiKey : option jsstring) :
  let response := generate fetchUpstream message apiKey in
  (ok (status response) = true <->
   exists code raw, body response = Success code raw) /\
  (ok (status response) = true ->
   status response = 200 /\ upstreamCalls response = 1%nat) /\
  (truthy message = false \/ configured apiKey = false ->
   upstreamCalls response = 0%nat) /\
  match body response with
  | Failure error _ => error <> [] /\ generateCode response = Threw error
  | Success code _ => generateCode response = Json true (Some code) None
  end.
Proof.
  unfold generate. destruct (truthy message); simpl.
  2: { repeat split; try done. by intros (? & ? & ?). }
  destruct (configured apiKey); simpl.
  2: { repeat split; try done. by intros (? & ? & ?). }
  assert (forall m c,
    let r := internalError m c in
    (ok (status r) = true <-> exists code raw, body r = Success code raw) /\
    (ok (status r) = true -> status r = 200 /\ upstreamCalls r = 1%nat) /\
    match body r with
    | Failure error _ => error <> [] /\ generateCode r = Threw error
    | Success code _ => generateCode r = Json true (Some code) None
    end) as Hint.
  { intros m c. repeat split; try done. by intros (? & ? & ?). }
  destruct (fetchUpstream _ _) as [m|st text data].
  { destruct (Hint m 1%nat) as (H1 & H2 & H3).
    repeat split; try apply H1; try apply H2; try done. by intros [|]. }
  destruct (ok st) eqn:Hok; simpl.
  2: { unfold generateCode. simpl. rewrite Hok. simpl.
       repeat split; try done; try congruence.
       - by intros (? & ? & ?).
       - by intros [|]. }
  destruct data as [m|content].
  { destruct (Hint m 1%nat) as (H1 & H2 & H3).
    repeat split; try apply H1; try apply H2; try done. by intros [|]. }
  destruct (extractCode _) as [code|] eqn:E.
  2: { match type of E with
       | extractCode ?a = None =>
           destruct (extractCode_returns a) as [? ?]; congruence
       end. }
  repeat split; try done.
  - by eexists _, _.
  - by intros [|].
Qed.

Lemma generate_answers_witness :
  let response :=
    generate (fun _ _ => Responded 200 [] (Content (Some (wrapInFence redCube))))
             (VString (lit "a red cube")) (Some (lit "sk-or-v1")) in
  ok (status response) = true /\
  status response = 200 /\ upstreamCalls response = 1%nat.
Proof.
  intros response.
  assert (ok (status response) = true) as H by (vm_compute; reflexivity).
  split; [exact H|].
  exact (proj1 (proj2 (generate_answers
                         (fun _ _ => Responded 200 []
                                       (Content (Some (wrapInFence redCube))))
                         (VString (lit "a red cube"))
                         (Some (lit "sk-or-v1")))) H).
Defined.

Lemma attempt_created (e : Scope -> jsstring -> Completion) (T : JSValue)
    (g : gmap string JSValue) (engineText : EngineError -> jsstring)
    (result : ApiResult) (object : JSValue) (cleaned : jsstring) :
  App.attempt e T g engineText result = Created object cleaned ->
  exists raw err,
    result = Json true (Some raw) err /\ cleanCode raw = Some cleaned /\
    valid (validateCode cleaned) = true /\
    e (sandboxScope T g) (functionBody cleaned) = Normal object /\
    isObject3D object = true.
Proof.
  unfold App.attempt. destruct result as [m|[|] [raw|] err]; try done.
  destruct (cleanCode raw) as [c|] eqn:Ec; [|done].
  destruct (outcome _) as [v|m|text|] eqn:Eo; try done.
  intros [= -> ->]. apply returned_characterised in Eo as (Hv & He & _ & Ho & _).
  by exists raw, err.
Qed.

Section WithHost.

Variable ev : nat -> Scope -> jsstring -> Completion.
Variable T : JSValue.
Variable g : gmap string JSValue.
Variable node : JSValue -> Object3D.
Variable traverse : JSValue -> option Thrown.
Variable focusOnObject : JSValue -> option Thrown.
Variable engineText : EngineError -> jsstring.
Variable now : nat.

Local Notation step :=
  (App.step ev T g node traverse focusOnObject engineText).
Local Notation run :=
  (App.run ev T g node traverse focusOnObject engineText).
Local Notation attempt := (App.attempt (ev now) T g engineText).

Lemma run_app (es1 es2 : list Event) (st : State) :
  run (es1 ++ es2) st = run es2 (run es1 st).
Proof. apply fold_left_app. Qed.

(** Every path of handleGenerateEnd ends in [finish]. *)
Lemma handleGenerateEnd_finish (result : ApiResult) (st : State) :
  exists v added hidden,
    handleGenerateEnd ev T g node traverse focusOnObject engineText result st
    = finish v added hidden st /\
    (v = viewer st \/
     exists object, isObject3D object = true /\
                    v = addObject (node object) (viewer st)).
Proof.
  unfold handleGenerateEnd.
  destruct (App.attempt _ _ _ _ _) as [object cleaned|m] eqn:Ea.
  - destruct (attempt_created _ _ _ _ _ _ _ Ea) as (_ & _ & _ & _ & _ & _ & Ho).
    unfold viewerAddObject. rewrite Ho. cbn [negb].
    destruct (traverse object) as [t|].
    + eexists _, _, _. split; [done|by left].
    + destruct (focusOnObject object) as [t|]; eexists _, _, _;
        (split; [done|right; by exists object]).
  - eexists _, _, _. split; [done|by left].
Qed.

Lemma step_oneAtATime (e : Event) (st : State) :
  oneAtATime st -> oneAtATime (step e st).
Proof.
  intros H. pose proof H as (Hlen & Hload & Hind & Hover).
  destruct e; cbn [App.step]; try exact H.
  - unfold handleSend. destruct (trim (input st)) as [|c m]; [exact H|].
    destruct (isLoading st) eqn:E; [exact H|]. cbn [orb].
    destruct (inFlight st) as [|? ?] eqn:Ei; [|done].
    unfold oneAtATime, handleGenerateBegin. cbn. rewrite ?Ei. cbn.
    repeat split; try lia. by rewrite Hind.
  - destruct (inFlight st) as [|m ms] eqn:Ei; [exact H|].
    assert (ms = []) as -> by (destruct ms; simpl in Hlen; [done|lia]).
    destruct (handleGenerateEnd_finish result st) as (v & a & h & -> & _).
    unfold finish, oneAtATime. cbn. rewrite ?Ei. cbn.
    repeat split; try lia; try by rewrite Hind.
Qed.

Lemma run_oneAtATime (events : list Event) (st : State) :
  oneAtATime st -> oneAtATime (run events st).
Proof.
  revert st. induction events as [|e es IH]; intros st H; [done|].
  apply IH. by apply step_oneAtATime.
Qed.



(** The viewer of the application stays tidy. *)
Lemma run_tidy (marked : bool) (events : list Event) (st : State) :
  tidy marked (viewer st) -> tidy marked (viewer (run events st)).
Proof.
  revert st. induction events as [|e es IH]; intros st Ht; [done|].
  apply IH. clear IH. destruct e; cbn [App.step]; try done.
  - unfold handleSend. destruct (trim (input st)); [done|].
    by destruct (isLoading st).
  - destruct (inFlight st) as [|q qs]; [done|].
    destruct (handleGenerateEnd_finish result st)
      as (v & a & h & -> & [->|(object & _ & ->)]); cbn [viewer finish];
      [done|by apply tidy_addObject].
  - by apply tidy_clearUserObjects.
Qed.

Lemma childrenAmong_all (us : list Object3D) :
  theScene ∉ us -> childrenAmong us = us.
Proof.
  induction us as [|o us IH]; [done|].
  intros [Ho Hus]%not_elem_of_cons. rewrite childrenAmong_cons.
  destruct (decide (o = theScene)); [done|]. by rewrite IH.
Qed.

Lemma remove_all_new (a us : list Object3D) :
  NoDup (a ++ us) -> theScene ∉ a -> theScene ∉ us ->
  fold_left (fun children obj => remove obj children) us (a ++ us) = a.
Proof.
  intros Hnd Ha Hus. pose proof (remove_all a us) as H.
  rewrite (childrenAmong_all us Hus) in H. by apply H.
Qed.

Lemma run_inOrder (marked : bool) (events : list Event) (st : State) :
  inOrder marked (viewer st) ->
  allFresh ev T g node traverse focusOnObject engineText events st ->
  inOrder marked (viewer (run events st)).
Proof.
  revert st. induction events as [|e es IH]; intros st Hi Hf; [done|].
  destruct Hf as [Hfe Hfs]. apply IH; [|done]. clear IH Hfs.
  destruct e; cbn [App.step]; try done.
  - unfold handleSend. destruct (trim (input st)); [done|].
    by destruct (isLoading st).
  - cbn [fresh] in Hfe. destruct (inFlight st) as [|q qs]; [done|].
    unfold handleGenerateEnd.
    destruct (App.attempt _ _ _ _ _) as [object cleaned|m] eqn:Ea; [|done].
    destruct Hfe as [Hnew Hns].
    destruct (attempt_created _ _ _ _ _ _ _ Ea) as (_ & _ & _ & _ & _ & _ & Ho).
    unfold viewerAddObject. rewrite Ho. cbn [negb].
    assert (inOrder marked (addObject (node object) (viewer st))) as Hadd.
    { destruct Hi as (Hs & Hnd & Hsc). unfold inOrder, addObject.
      cbn [scene userObjects]. rewrite add_new by done.
      split; [by rewrite Hs, <- app_assoc|]. split.
      - apply NoDup_app. repeat split; try done.
        + intros x Hx [->|[]%elem_of_nil]%elem_of_cons. done.
        + apply NoDup_singleton.
      - intros [H|[E|[]%elem_of_nil]%elem_of_cons]%elem_of_app; [done|].
        by apply Hns. }
    destruct (traverse object); [done|].
    by destruct (focusOnObject object).
  - destruct Hi as (Hs & Hnd & Hsc). unfold inOrder, clearUserObjects.
    cbn [viewer scene userObjects]. rewrite Hs in Hnd |- *.
    rewrite remove_all_new by (done || apply infrastructure_without_scene).
    rewrite app_nil_r. split; [done|]. split; [apply infrastructure_NoDup|].
    by intros ?%elem_of_nil.
Qed.


(** X17. An empty answer of the model, a missing content included, is
    served as a success with an empty code; the client then reports that
    the code must contain a createObject definition, evaluates nothing
    and leaves the viewer as it was. *)
Theorem empty_answer_is_a_structural_rejection
    (fetchUpstream : jsstring -> JSValue -> Upstream)
    (message : JSValue) (apiKey : option jsstring)
    (st : N) (text : jsstring) (content : option jsstring) (app : State) :
  truthy message = true -> configured apiKey = true -> ok st = true ->
  fetchUpstream (default [] apiKey) message = Responded st text (Content content) ->
  content = None \/ content = Some [] ->
  inFlight app <> [] ->
  let response := generate fetchUpstream message apiKey in
  let app' := step (Settled (generateCode response)) app in
  body response = Success [] [] /\
  attempt (generateCode response) = Failed structuralMessage /\
  viewer app' = viewer app /\
  messages app' = messages app
                  ++ [mkMessage issueText AI None (Some structuralMessage)].
Proof.
  intros Hm Hk Hok Hf Hc Hne response app'.
  assert (response = mkResponse 200 (Success [] []) 1) as Hr.
  { unfold response, generate. rewrite Hm, Hk, Hf, Hok. cbn.
    by destruct Hc as [-> | ->]. }
  subst app'. rewrite Hr. split; [done|].
  assert (forall e, App.attempt e T g engineText
                      (generateCode (mkResponse 200 (Success [] []) 1))
                    = Failed structuralMessage) as Ha by (by vm_compute).
  split; [apply Ha|]. cbn [App.step].
  destruct (inFlight app); [done|]. unfold handleGenerateEnd. by rewrite Ha.
Qed.


End WithHost.




Lemma empty_answer_witness :
  let upstream := fun (_ : jsstring) (_ : JSValue) =>
                    Responded 200 [] (Content None) in
  let step := App.step (fun _ _ _ => Normal VNull) VNull ∅
                       (fun _ => Group 7) (fun _ => None) (fun _ => None)
                       (fun _ => []) in
  let app := step Send (step (Typed (lit "a red cube")) (initial false false)) in
  let response := generate upstream (VString (lit "a red cube"))
                           (Some (lit "sk-or-v1")) in
  (truthy (VString (lit "a red cube")) = true /\
   configured (Some (lit "sk-or-v1")) = true /\ ok 200 = true /\
   inFlight app <> []) /\
  viewer (step (Settled (generateCode response)) app) = viewer app.
Proof.
  intros upstream step app response.
  assert (truthy (VString (lit "a red cube")) = true) as H1 by reflexivity.
  assert (configured (Some (lit "sk-or-v1")) = true) as H2
    by (vm_compute; reflexivity).
  assert (ok 200 = true) as H3 by reflexivity.
  assert (inFlight app <> []) as H4 by (vm_compute; discriminate).
  split; [by repeat split|].
  destruct (empty_answer_is_a_structural_rejection
              (fun _ _ _ => Normal VNull) VNull ∅ (fun _ => Group 7)
              (fun _ => None) (fun _ => None)
              (fun _ => []) 0%nat upstream (VString (lit "a red cube"))
              (Some (lit "sk-or-v1")) 200 [] None app
              H1 H2 H3 eq_refl (or_introl eq_refl) H4) as (_ & _ & Hv & _).
  exact Hv.
Defined.


End AppFacts.
